(** * git_utils: a shallow embedding of [git_utils.py] and its properties

    The module talks to the GitHub REST API: it resolves credentials from
    the environment, watches the rate-limit headers of every response,
    splits repository URLs, fetches file contents, matches commits against
    artifacts or workflow runs and downloads and unpacks an artifact.

    Pure helpers are plain functions.  Code that touches the outside world
    (environment, clock, HTTP transport, logging, archive extraction,
    [exit]) runs in a state monad over a [World] whose result is either a
    value, a process exit or a raised exception. *)

From Stdlib Require Import ZArith QArith Ascii String Lia.
From stdpp Require Import base decidable option list strings gmap pretty.

Local Open Scope string_scope.
Local Open Scope list_scope.
Local Open Scope Z_scope.

(** ** [unique] *)

Section unique.
Context {A : Type} `{EqDecision A}.

(** The body of [unique]: [unique_list] is the accumulator, the second
    argument is what is left of [duplist].  [x not in unique_list] is
    Python's membership test, which compares with [==]. *)
Fixpoint unique_loop (unique_list duplist : list A) : list A :=
  match duplist with
  | [] => unique_list
  | x :: rest =>
      if decide (x ∈ unique_list)
      then unique_loop unique_list rest
      else unique_loop (unique_list ++ [x]) rest
  end.

Definition unique (duplist : list A) : list A := unique_loop [] duplist.

(** [index_of x l] is [l.index(x)]: the position of the first occurrence
    of [x] in [l]. *)
Fixpoint index_of (x : A) (l : list A) : option nat :=
  match l with
  | [] => None
  | y :: l' => if decide (x = y) then Some 0%nat else S <$> index_of x l'
  end.
End unique.

(** ** Python strings and bytes

    A [str] is a [string]; a character whose code is 128 or more stands for
    a non-ASCII code point.  A [bytes] value is a list of 8-bit characters. *)

Abbreviation bytes := (list ascii).

Definition is_ascii (c : ascii) : bool := (N_of_ascii c <? 128)%N.

Fixpoint str_to_list (s : string) : list ascii :=
  match s with
  | EmptyString => []
  | String c s' => c :: str_to_list s'
  end.

(** [s.split(sep)] for a one-character separator: a string with [n]
    separators gives [n + 1] pieces. *)
Fixpoint split (sep : ascii) (s : string) : list string :=
  match s with
  | EmptyString => [EmptyString]
  | String c s' =>
      if decide (c = sep) then EmptyString :: split sep s'
      else match split sep s' with
           | [] => [String c EmptyString]
           | piece :: pieces => String c piece :: pieces
           end
  end.

(** [s.replace(old, new)] for a non-empty [old]: every occurrence found by
    a left-to-right scan is replaced and the scan goes on behind it.
    [skip] counts the characters of the occurrence still to step over. *)
Fixpoint replace_from (old new : string) (skip : nat) (s : string) : string :=
  match s with
  | EmptyString => EmptyString
  | String c s' =>
      match skip with
      | S k => replace_from old new k s'
      | O =>
          if String.prefix old s
          then (new +:+ replace_from old new (String.length old - 1) s')
          else String c (replace_from old new 0 s')
      end
  end.

Definition replace (old new s : string) : string := replace_from old new 0 s.

(** *** [base64]

    [b64encode] is RFC 4648 with padding.  [b64decode] follows the loop of
    CPython's [binascii.a2b_base64] in its default, non-strict mode:
    characters outside the alphabet are skipped, a completed pad sequence
    ends the input, and a quad left open is an error. *)

Definition b64_alphabet : string :=
  "ABCDEFGHIJKLMNOPQRSTUVWXYZabcdefghijklmnopqrstuvwxyz0123456789+/".

Definition b64_char (sextet : N) : ascii :=
  default "="%char (String.get (N.to_nat sextet) b64_alphabet).

Fixpoint b64_find (c : ascii) (table : string) (i : N) : option N :=
  match table with
  | EmptyString => None
  | String d table' => if decide (c = d) then Some i else b64_find c table' (N.succ i)
  end.

Definition b64_value (c : ascii) : option N := b64_find c b64_alphabet 0%N.

Fixpoint b64encode (s : bytes) : string :=
  match s with
  | [] => EmptyString
  | [a] =>
      let n := (N_of_ascii a * 65536)%N in
      String (b64_char (n / 262144)) (String (b64_char ((n / 4096) mod 64)) "==")
  | [a; b] =>
      let n := (N_of_ascii a * 65536 + N_of_ascii b * 256)%N in
      String (b64_char (n / 262144)) (String (b64_char ((n / 4096) mod 64))
        (String (b64_char ((n / 64) mod 64)) "="))
  | a :: b :: c :: rest =>
      let n := (N_of_ascii a * 65536 + N_of_ascii b * 256 + N_of_ascii c)%N in
      String (b64_char (n / 262144)) (String (b64_char ((n / 4096) mod 64))
        (String (b64_char ((n / 64) mod 64)) (String (b64_char (n mod 64))
          (b64encode rest))))
  end.

Fixpoint a2b_base64 (data : string) (quad_pos : nat) (leftchar : N)
    (pads : nat) (out : bytes) : option bytes :=
  match data with
  | EmptyString => if decide (quad_pos = 0%nat) then Some out else None
  | String this_ch data' =>
      if decide (this_ch = "="%char) then
        if decide (2 ≤ quad_pos)%nat then
          if decide (4 ≤ quad_pos + S pads)%nat then Some out
          else a2b_base64 data' quad_pos leftchar (S pads) out
        else a2b_base64 data' quad_pos leftchar pads out
      else
        match b64_value this_ch with
        | None => a2b_base64 data' quad_pos leftchar pads out
        | Some v =>
            match quad_pos with
            | 0%nat => a2b_base64 data' 1 v 0 out
            | 1%nat =>
                a2b_base64 data' 2 (v mod 16)%N 0
                  (out ++ [ascii_of_N (leftchar * 4 + v / 16)])
            | 2%nat =>
                a2b_base64 data' 3 (v mod 4)%N 0
                  (out ++ [ascii_of_N (leftchar * 16 + v / 4)])
            | _ =>
                a2b_base64 data' 0 0%N 0
                  (out ++ [ascii_of_N (leftchar * 64 + v)])
            end
        end
  end.

(** [base64.b64decode(s)] on a [str]: the argument is first encoded as
    ASCII ([ValueError] otherwise), then decoded ([binascii.Error] on a
    quad left open). *)
Inductive Exn :=
  | BadZipFile | TypeError | KeyError | ValueError | UnicodeEncodeError
  | BinasciiError | JSONDecodeError | MissingSchema | ConnectionError.

#[export] Instance Exn_eq_dec : EqDecision Exn.
Proof. solve_decision. Defined.

Definition b64decode (s : string) : Exn + bytes :=
  if forallb is_ascii (str_to_list s) then
    match a2b_base64 s 0 0%N 0 [] with
    | Some out => inr out
    | None => inl BinasciiError
    end
  else inl ValueError.

(** [s.encode('ascii')] *)
Definition encode_ascii (s : string) : Exn + bytes :=
  if forallb is_ascii (str_to_list s) then inr (str_to_list s)
  else inl UnicodeEncodeError.

(** ** Rationals standing for Python floats

    [time.time()], the throttle delay and [limit * 0.50] are floats in the
    source.  They are modelled by exact rationals, kept in lowest terms.
    The tests the code makes on them come out the same on floats within
    the range of a binary float's integers: the bounds [0] and [10] are
    held exactly, rounding to nearest is monotone, and [limit * 0.5] is
    exact for a limit of no more than [2 ^ 53] in size (Python compares
    an [int] with a [float] exactly).  Beyond that range the product is
    rounded; statements that rest on it carry the bound as a hypothesis. *)

Definition Qlt_bool (x y : Q) : bool := negb (Qle_bool y x).

(** [int(x)] on a float truncates toward zero. *)
Definition Qtrunc (x : Q) : Z := Z.quot (Qnum x) (Z.pos (Qden x)).

(** [sys.maxsize] on a 64-bit build. *)
Definition sys_maxsize : Z := 2 ^ 63 - 1.

(** ** API data *)

Module Commit.
Record t := mk { sha : string }.
End Commit.

Module WorkflowRunRef.
Record t := mk { head_sha : string }.
End WorkflowRunRef.

Module Artifact.
Record t := mk {
  name : string;
  workflow_run : WorkflowRunRef.t;
  archive_download_url : string }.
End Artifact.

Module Run.
Record t := mk { name : string; head_sha : string; html_url : string }.
End Run.

(** What [r.json()] can be: a JSON array (the commits listing, or the
    contents listing of a directory) or a JSON object, of which the keys
    the module looks at are kept, each present or absent. *)
Record JObject := {
  artifacts : option (list Artifact.t);
  workflow_runs : option (list Run.t);
  content : option string;
  encoding : option string }.

Inductive Json :=
  | JList (items : list Commit.t)
  | JDict (d : JObject).

(** The body of a response: JSON text, a well-formed zip archive with its
    members, or anything else. *)
Inductive Body :=
  | BJson (j : Json)
  | BZip (members : list (string * string))
  | BOther.

(** A header value as Python sees it after [headers.get(key, default)]:
    the header's text, or the integer default. *)
Inductive PyVal := PyStr (s : string) | PyInt (n : Z).

(** A response.  The three quota headers go through [int(...)] in the
    source and are kept here as the integers they hold; [content-type] and
    [content-length] are used as the text they are. *)
Record Response := {
  status_code : Z;
  x_ratelimit_remaining : option Z;
  x_ratelimit_limit : option Z;
  x_ratelimit_reset : option Z;
  content_type : option string;
  content_length : option string;
  body : Body }.

(** ** The world and the monad *)

Inductive Level := DEBUG | INFO | WARNING | ERROR.

Inductive Event :=
  | EvLog (lvl : Level) (msg : string)
  | EvStderr (msg : string)
  | EvRequest (url : string) (headers : gmap string string) (per_page : option Z)
  | EvSleep (delay : Q)
  | EvExtract (directory : string) (members : list (string * string)).

Record World := {
  environ : gmap string string;   (* os.environ *)
  clock : Q;                      (* what time.time() returns now *)
  transport : list Response;      (* the answers still to come, in order *)
  trace : list Event }.           (* what has been done so far, oldest first *)

Inductive Outcome (A : Type) : Type :=
  | Ret (a : A)
  | Exit (code : Z)
  | Raise (e : Exn).
Arguments Ret {A} a.
Arguments Exit {A} code.
Arguments Raise {A} e.

Definition M (A : Type) : Type := World → Outcome A * World.

#[export] Instance M_ret : MRet M := λ A a w, (Ret a, w).

#[export] Instance M_bind : MBind M := λ A B f m w,
  match m w with
  | (Ret a, w') => f a w'
  | (Exit code, w') => (Exit code, w')
  | (Raise e, w') => (Raise e, w')
  end.

Definition emit (ev : Event) : M unit := λ w,
  (Ret tt, {| environ := environ w; clock := clock w;
              transport := transport w; trace := trace w ++ [ev] |}).

Definition exit {A} (code : Z) : M A := λ w, (Exit code, w).
Definition raise {A} (e : Exn) : M A := λ w, (Raise e, w).

Definition lift {A} (r : Exn + A) : M A :=
  match r with inl e => raise e | inr a => mret a end.

(** [try: body except e: handler] *)
Definition try_except {A} (body : M A) (e : Exn) (handler : M A) : M A := λ w,
  match body w with
  | (Raise e', w') => if decide (e' = e) then handler w' else (Raise e', w')
  | r => r
  end.

Definition logging_debug (msg : string) : M unit := emit (EvLog DEBUG msg).
Definition logging_info (msg : string) : M unit := emit (EvLog INFO msg).
Definition logging_warning (msg : string) : M unit := emit (EvLog WARNING msg).
Definition logging_error (msg : string) : M unit := emit (EvLog ERROR msg).

(** [os.getenv(key, default)] *)
Definition os_getenv (key fallback : string) : M string := λ w,
  (Ret (default fallback (environ w !! key)), w).

Definition time_time : M Q := λ w, (Ret (clock w), w).

Definition time_sleep (delay : Q) : M unit := λ w,
  (Ret tt, {| environ := environ w; clock := Qred (clock w + delay);
              transport := transport w;
              trace := trace w ++ [EvSleep delay] |}).

(** [requests.get(url, headers=..., params=...)].  A missing URL is
    refused before anything is sent; otherwise the request goes out and the
    transport's next answer comes back. *)
Definition requests_get (url : option string) (headers : gmap string string)
    (per_page : option Z) : M Response := λ w,
  match url with
  | None => (Raise MissingSchema, w)
  | Some u =>
      let tr := trace w ++ [EvRequest u headers per_page] in
      match transport w with
      | [] => (Raise ConnectionError,
               {| environ := environ w; clock := clock w;
                  transport := []; trace := tr |})
      | r :: rest => (Ret r,
               {| environ := environ w; clock := clock w;
                  transport := rest; trace := tr |})
      end
  end.

(** [r.json()] *)
Definition json (r : Response) : M Json :=
  match body r with
  | BJson j => mret j
  | _ => raise JSONDecodeError
  end.

(** [zipfile.ZipFile(io.BytesIO(r.content))] followed by
    [z.extractall(directory)].  The event stands for a call of
    [extractall] that returned, every member written.  An archive that
    fails, in the constructor or part-way through [extractall], is
    [BadZipFile]; what it has written by then is not recorded. *)
Definition zip_extractall (r : Response) (directory : string) : M unit :=
  match body r with
  | BZip members => emit (EvExtract directory members)
  | _ => raise BadZipFile
  end.

(** ** The functions of [git_utils.py] *)

Module ParseResult.
Record t := mk { path : string }.
End ParseResult.

(** What [fetch_file_from_git] hands back: decoded bytes, or the
    [content] text as it came. *)
Inductive FileContent := Bytes (b : bytes) | Str (s : string).

(** [str(v)] inside an f-string *)
Definition py_str (v : PyVal) : string :=
  match v with PyStr s => s | PyInt n => pretty n end.

(** [v >= n] for an integer [n]: Python 3 refuses to order a [str] and an
    [int]. *)
Definition py_ge (v : PyVal) (n : Z) : M bool :=
  match v with
  | PyInt m => mret (n <=? m)
  | PyStr _ => raise TypeError
  end.

(** [str(download_url)] inside an f-string *)
Definition py_str_opt (v : option string) : string := default "None" v.

Definition check_status (r : Response) : M unit :=
  if decide (status_code r = 401) then
    logging_error "unauthorised, check INFO.md for information about GitHub API keys";;
    exit 1
  else mret tt.

Definition check_rate_limit (r : Response) : M unit :=
  let remaining := default (-1) (x_ratelimit_remaining r) in
  let limit := default (-1) (x_ratelimit_limit r) in
  let reset := default sys_maxsize (x_ratelimit_reset r) in
  let s := "" in
  let status_code := status_code r in
  let content_type := default "" (content_type r) in
  let s := if decide (content_type ≠ "") then s +:+ " with " +:+ content_type else s in
  let content_length := match content_length r with
                        | Some text => PyStr text
                        | None => PyInt (-1)
                        end in
  has_length ← py_ge content_length 0;
  let s := if has_length : bool
           then s +:+ " " +:+ py_str content_length +:+ " byte(s)" else s in
  now ← time_time;
  let when := Qtrunc (inject_Z reset - now) in
  let when := if when <? 0 then 0 else when in
  (if Qlt_bool (inject_Z remaining) (inject_Z limit * (1 # 2)) then
     logging_info ("HTTP/" +:+ pretty status_code +:+ " X-RateLimit "
                   +:+ pretty remaining +:+ "/" +:+ pretty limit +:+ " resets in "
                   +:+ pretty when +:+ "s [" +:+ pretty reset +:+ "] " +:+ s)
   else mret tt);;
  (* Only throttle within limits *)
  (if (0 <? remaining) && (remaining <? 100) && (0 <? when) then
     let delay := Qred (inject_Z when / inject_Z remaining + 1) in
     if Qlt_bool 0 delay && Qlt_bool delay 10 then
       logging_warning ("X-RateLimit client throttle delay " +:+ pretty (Qtrunc delay));;
       time_sleep delay
     else mret tt
   else mret tt);;
  if decide (remaining = 0) then
    logging_error "X-RateLimit no API requests remaining";;
    exit 1
  else mret tt.

Definition headers_try_to_add_authorization_from_environment
    (headers : gmap string string) : M (gmap string string * bool) :=
  gh_token ← os_getenv "GH_TOKEN" "";
  gh_token ← (if decide (gh_token = "") then os_getenv "GITHUB_TOKEN" ""
              else mret gh_token);
  if decide (0 < String.length gh_token)%nat then
    mret (<["authorization" := "Bearer " +:+ gh_token]> headers, true)
  else
    gh_username ← os_getenv "GH_USERNAME" "";
    gh_username ← (if decide (gh_username = "") then os_getenv "GITHUB_ACTOR" ""
                   else mret gh_username);
    gh_password ← os_getenv "GH_PASSWORD" "";
    if decide (0 < String.length gh_username ∧ 0 < String.length gh_password)%nat then
      let auth_string := gh_username +:+ ":" +:+ gh_password in
      raw ← lift (encode_ascii auth_string);
      let encoded := b64encode raw in
      mret (<["authorization" := "Basic " +:+ encoded]> headers, true)
    else
      emit (EvStderr "WARNING: No github token found from environment, trying public API requests without, see docs/INFO.md#instructions-to-build-gds");;
      mret (headers, false).

(** [for commit in commits: if commit['sha'] in d: return d[commit['sha']]];
    falling off the end of the function returns [None]. *)
Fixpoint first_commit_in (d : gmap string string) (commits : list Commit.t)
    : option string :=
  match commits with
  | [] => None
  | commit :: rest =>
      match d !! Commit.sha commit with
      | Some v => Some v
      | None => first_commit_in d rest
      end
  end.

(** [{key(x): value(x) for x in xs}]: built left to right, a later entry
    overwrites an earlier one with the same key. *)
Definition dict_comprehension {X} (key value : X → string) (xs : list X)
    : gmap string string :=
  foldl (λ d x, <[key x := value x]> d) ∅ xs.

Definition get_most_recent_action_url (commits : list Commit.t)
    (artifacts : list Artifact.t) : option string :=
  let release_sha_to_download_url :=
    dict_comprehension
      (λ artifact, WorkflowRunRef.head_sha (Artifact.workflow_run artifact))
      Artifact.archive_download_url artifacts in
  first_commit_in release_sha_to_download_url commits.

Definition get_most_recent_action_page (commits : list Commit.t)
    (runs : list Run.t) : option string :=
  let release_sha_to_page_url :=
    dict_comprehension Run.head_sha Run.html_url
      (filter (λ run, Run.name run = "gds") runs) in
  first_commit_in release_sha_to_page_url commits.

(** Iterating over what the commits request returned.  A JSON object
    iterates over its keys, and [commit['sha']] on a key (a [str]) raises
    [TypeError]; every object the API answers with has a key. *)
Definition iter_commits (j : Json) : M (list Commit.t) :=
  match j with
  | JList items => mret items
  | JDict _ => raise TypeError
  end.

Section git_utils.
(** [urllib.parse.urlparse] is the standard library's; the module only
    reads the [path] of its result. *)
Variable urlparse : string → ParseResult.t.

Definition split_git_url (url : string) : M (string * string) :=
  let res := urlparse url in
  match split "/" (ParseResult.path res) with
  | [_; user_name; repo] =>
      let repo := replace ".git" "" repo in
      mret (user_name, repo)
  | _ =>
      logging_error ("couldn't split repo from " +:+ url);;
      exit 1
  end.

Definition fetch_file_from_git (git_url path : string) : M (option FileContent) :=
  '(user_name, repo) ← split_git_url git_url;
  let headers : gmap string string :=
    {["Accept" := "application/vnd.github+json"]} in
  '(headers, _) ← headers_try_to_add_authorization_from_environment headers;
  let api_url := "https://api.github.com/repos/" +:+ user_name +:+ "/" +:+ repo
                 +:+ "/contents/" +:+ path in
  logging_debug api_url;;
  r ← requests_get (Some api_url) headers None;
  check_status r;;
  check_rate_limit r;;
  data ← json r;
  match data with
  | JList _ => mret None
  | JDict d =>
      match content d with
      | None => mret None
      | Some file_content =>
          let file_content_encoding := encoding d in
          if decide (file_content_encoding = Some "base64") then
            decoded ← lift (b64decode file_content);
            mret (Some (Bytes decoded))
          else mret (Some (Str file_content))
      end
  end.

(** The body of the [while] loop: the [try] block ends in [break]
    ([true], [attempts] as it was), the [except] block counts the attempt
    ([false], [attempts + 1]). *)
Definition download_attempt (download_url : option string)
    (headers : gmap string string) (directory : string) (attempts : Z)
    : M (bool * Z) :=
  try_except
    (logging_debug ("download url " +:+ py_str_opt download_url
                    +:+ " attempt " +:+ pretty attempts);;
     r ← requests_get download_url headers None;
     check_status r;;
     zip_extractall r directory;;
     mret (true, attempts))
    BadZipFile
    (let attempts := attempts + 1 in
     logging_warning ("problem with zipfile, retry " +:+ pretty attempts);;
     mret (false, attempts)).

(** The [while] loop, one pass per unit of [fuel]; [None] means the fuel
    ran out with the loop condition still true.  Otherwise the value of
    [attempts] on leaving the loop is returned. *)
Fixpoint download_loop (fuel : nat) (download_url : option string)
    (headers : gmap string string) (directory : string)
    (attempts max_attempts : Z) : M (option Z) :=
  if attempts <? max_attempts then
    match fuel with
    | O => mret None
    | S fuel' =>
        '(done, attempts) ←
          download_attempt download_url headers directory attempts;
        if done : bool then mret (Some attempts)
        else download_loop fuel' download_url headers directory attempts max_attempts
    end
  else mret (Some attempts).

Definition install_artifacts (fuel : nat) (url directory : string)
    : M (option unit) :=
  logging_debug url;;
  '(user_name, repo) ← split_git_url url;
  let headers : gmap string string :=
    {["Accept" := "application/vnd.github+json"]} in
  '(headers, _) ← headers_try_to_add_authorization_from_environment headers;
  (* first fetch the git commit history *)
  let api_url := "https://api.github.com/repos/" +:+ user_name +:+ "/" +:+ repo
                 +:+ "/commits" in
  r ← requests_get (Some api_url) headers None;
  check_status r;;
  check_rate_limit r;;
  commits ← json r;
  (* now get the artifacts *)
  let api_url := "https://api.github.com/repos/" +:+ user_name +:+ "/" +:+ repo
                 +:+ "/actions/artifacts" in
  r ← requests_get (Some api_url) headers (Some 100);
  check_status r;;
  data ← json r;
  (* check there are some artifacts *)
  artifacts ←
    match data with
    | JDict {| artifacts := Some all |} =>
        (* only get artifacts called GDS *)
        let artifacts := filter (λ a, Artifact.name a = "GDS") all in
        logging_debug ("found " +:+ pretty (length artifacts) +:+ " artifacts");;
        mret artifacts
    | _ =>
        logging_error ("no artifact found for " +:+ url);;
        exit 1
    end;
  (if decide (length artifacts = 0%nat) then
     logging_error "no artifacts for this project";;
     exit 1
   else mret tt);;
  commits ← iter_commits commits;
  let download_url := get_most_recent_action_url commits artifacts in
  let attempts := 1 in
  let max_attempts := 3 in
  left_at ← download_loop fuel download_url headers directory attempts max_attempts;
  match left_at with
  | None => mret None
  | Some attempts =>
      if decide (attempts = max_attempts) then
        logging_error "gave up downloading zipfile";;
        exit 1
      else mret (Some tt)
  end.

Definition get_latest_action_url (url directory : string) : M (option string) :=
  logging_debug url;;
  '(user_name, repo) ← split_git_url url;
  let headers : gmap string string :=
    {["Accept" := "application/vnd.github+json"]} in
  '(headers, _) ← headers_try_to_add_authorization_from_environment headers;
  let api_url := "https://api.github.com/repos/" +:+ user_name +:+ "/" +:+ repo
                 +:+ "/commits" in
  r ← requests_get (Some api_url) headers None;
  check_status r;;
  check_rate_limit r;;
  commits ← json r;
  (* get runs *)
  let api_url := "https://api.github.com/repos/" +:+ user_name +:+ "/" +:+ repo
                 +:+ "/actions/runs" in
  r ← requests_get (Some api_url) headers (Some 100);
  check_status r;;
  runs ← json r;
  runs ← match runs with
         | JList _ => raise TypeError
         | JDict d => match workflow_runs d with
                      | Some runs => mret runs
                      | None => raise KeyError
                      end
         end;
  commits ← iter_commits commits;
  let page_url := get_most_recent_action_page commits runs in
  mret page_url.
End git_utils.

(** ** [fetch_file]

    [fetch_file] is the one function that writes a file.  The files are a
    map from names to contents, threaded through the call.  Three things
    the module takes from outside are parameters: the raw bytes
    [r.content] of a response (responses are kept parsed here), whether
    [open(filename, 'wb')] succeeds on the files as they are, and
    [os.strerror].  [FileNotFoundError] and the error of a failed [open]
    are raised by no other function of the module; they are returned as
    values. *)

Definition ENOENT : Z := 2.

Inductive FileError :=
  | FileNotFoundError (errno : Z) (strerror filename : string)
  | OSError.

Section fetch_file.
Variable content_bytes : Response → bytes.
Variable open_wb : string → gmap string bytes → bool.
Variable os_strerror : Z → string.

Definition fetch_file (url filename : string) (files : gmap string bytes)
    : M ((FileError + unit) * gmap string bytes) :=
  logging_info ("trying to download " +:+ url);;
  r ← requests_get (Some url) ∅ None;
  if decide (status_code r ≠ 200) then
    logging_warning ("couldn't download " +:+ url);;
    mret (inl (FileNotFoundError ENOENT (os_strerror ENOENT) filename), files)
  else
    if open_wb filename files then
      (* mode 'wb' truncates *)
      let files := <[filename := []]> files in
      logging_info ("written to " +:+ filename);;
      mret (inr tt, <[filename := content_bytes r]> files)
    else mret (inl OSError, files).
End fetch_file.

(** ** A parser for plain URLs

    [urlparse_plain] gives the path of a URL of the shape
    [scheme://authority/path] that carries no params, query or fragment,
    which is the path [urllib.parse.urlparse] gives on such a URL; a string
    without [://] is all path.  It instantiates [urlparse] in the examples;
    the theorems hold for every [urlparse]. *)

Fixpoint after_scheme (url : string) : option string :=
  match url with
  | EmptyString => None
  | String c url' =>
      if String.prefix "://" url then Some (String.substring 3 (String.length url) url)
      else after_scheme url'
  end.

Fixpoint from_slash (s : string) : string :=
  match s with
  | EmptyString => EmptyString
  | String c s' => if decide (c = "/"%char) then s else from_slash s'
  end.

Definition urlparse_plain (url : string) : ParseResult.t :=
  match after_scheme url with
  | Some rest => ParseResult.mk (from_slash rest)
  | None => ParseResult.mk url
  end.

(** A world with nothing in the environment, the clock at [now] and the
    given answers queued. *)
Definition world (env : gmap string string) (now : Q) (answers : list Response)
    : World :=
  {| environ := env; clock := now; transport := answers; trace := [] |}.

(** A response with the given status and body and no header of interest. *)
Definition response (status : Z) (b : Body) : Response :=
  {| status_code := status;
     x_ratelimit_remaining := None; x_ratelimit_limit := None;
     x_ratelimit_reset := None; content_type := None; content_length := None;
     body := b |}.

(** A bodyless response that carries the three quota headers. *)
Definition quota_response (remaining limit reset : Z) : Response :=
  {| status_code := 200;
     x_ratelimit_remaining := Some remaining; x_ratelimit_limit := Some limit;
     x_ratelimit_reset := Some reset; content_type := None;
     content_length := None; body := BOther |}.

(** The requests recorded in a trace. *)
Definition requests_of (tr : list Event) : list string :=
  omap (λ ev, match ev with EvRequest u _ _ => Some u | _ => None end) tr.

(** The delays slept in a trace. *)
Definition sleeps_of (tr : list Event) : list Q :=
  omap (λ ev, match ev with EvSleep d => Some d | _ => None end) tr.

(** The archives unpacked in a trace. *)
Definition extracts_of (tr : list Event) : list (string * list (string * string)) :=
  omap (λ ev, match ev with EvExtract d ms => Some (d, ms) | _ => None end) tr.

(** ** Notions used in the statements *)

(** [first_hit d commits v]: [v] is the value of the first commit, in the
    order of [commits], whose sha is a key of [d]. *)
Definition first_hit (d : gmap string string) (commits : list Commit.t)
    (v : string) : Prop :=
  ∃ pre c post,
    commits = pre ++ c :: post
    ∧ Forall (λ c', d !! Commit.sha c' = None) pre
    ∧ d !! Commit.sha c = Some v.

(** [quiet m]: [m] sends no request and takes no answer from the
    transport, however it ends. *)
Definition quiet {A} (m : M A) : Prop :=
  ∀ w, requests_of (trace (m w).2) = requests_of (trace w)
       ∧ transport (m w).2 = transport w.

(** [s.count(c)] for a character [c]. *)
Fixpoint count_char (c : ascii) (s : string) : nat :=
  match s with
  | EmptyString => 0
  | String d s' => (if decide (d = c) then 1 else 0) + count_char c s'
  end.

(** [s.endswith(suffix)] *)
Definition endswith (s suffix : string) : bool :=
  String.prefix (String.rev suffix) (String.rev s).

(** The world after [logging.error(msg)]. *)
Definition logged_error (w : World) (msg : string) : World :=
  {| environ := environ w; clock := clock w; transport := transport w;
     trace := trace w ++ [EvLog ERROR msg] |}.

(** What it means for a run to end in [exit(1)] without having used the
    network. *)
Definition exits_offline {A} (w : World) (r : Outcome A * World) : Prop :=
  r.1 = Exit 1
  ∧ requests_of (trace r.2) = requests_of (trace w)
  ∧ transport r.2 = transport w.

(** [os.getenv(key, '')] read off a world. *)
Definition getenv (w : World) (key : string) : string :=
  default "" (environ w !! key).

(** The world after the warning on standard error. *)
Definition stderr_warned (w : World) : World :=
  {| environ := environ w; clock := clock w; transport := transport w;
     trace := trace w ++ [EvStderr "WARNING: No github token found from environment, trying public API requests without, see docs/INFO.md#instructions-to-build-gds"] |}.

(** The throttle in the words of the specification: the quota left, the
    seconds to the reset (never negative), the delay, and the condition
    under which the delay is slept. *)
Definition quota_remaining (r : Response) : Z :=
  default (-1) (x_ratelimit_remaining r).

Definition seconds_to_reset (r : Response) (now : Q) : Z :=
  let when := Qtrunc (inject_Z (default sys_maxsize (x_ratelimit_reset r)) - now) in
  if when <? 0 then 0 else when.

Definition throttle_delay (r : Response) (now : Q) : Q :=
  Qred (inject_Z (seconds_to_reset r now) / inject_Z (quota_remaining r) + 1).

Definition throttles (r : Response) (now : Q) : Prop :=
  0 < quota_remaining r < 100
  ∧ 0 < seconds_to_reset r now
  ∧ (0 < throttle_delay r now)%Q ∧ (throttle_delay r now < 10)%Q.

(** What [fetch_file_from_git] does with a [content] text whose
    [encoding] is base64: the decoded bytes, or the decoder's exception. *)
Definition decoded (text : string) : Outcome (option FileContent) :=
  match b64decode text with
  | inr b => Ret (Some (Bytes b))
  | inl e => Raise e
  end.

(** How many requests a run that started in [w] has sent. *)
Definition sent {A} (w : World) (res : Outcome A * World) : nat :=
  length (requests_of (trace res.2)) - length (requests_of (trace w)).

(** The artifacts named GDS. *)
Definition gds_artifacts (all : list Artifact.t) : list Artifact.t :=
  filter (λ a, Artifact.name a = "GDS") all.

(** A parsed answer that carries no artifacts collection: a JSON array, or
    an object without the key. *)
Definition no_artifacts (data : Json) : Prop :=
  match data with
  | JList _ => True
  | JDict d => artifacts d = None
  end.

(** ** Notions used in the further properties *)

(** The lines logged at INFO level in a trace. *)
Definition infos_of (tr : list Event) : list string :=
  omap (λ ev, match ev with EvLog INFO msg => Some msg | _ => None end) tr.

(** The user name the resolver settles on. *)
Definition gh_user (w : World) : string :=
  if decide (getenv w "GH_USERNAME" = "") then getenv w "GITHUB_ACTOR"
  else getenv w "GH_USERNAME".

(** The token the resolver settles on. *)
Definition gh_token (w : World) : string :=
  if decide (getenv w "GH_TOKEN" = "") then getenv w "GITHUB_TOKEN"
  else getenv w "GH_TOKEN".

(** [old in s] for strings: [old] stands somewhere in [s]. *)
Fixpoint contains (old s : string) : bool :=
  String.prefix old s
  || match s with
     | EmptyString => false
     | String _ s' => contains old s'
     end.

(** The requests recorded in a trace, with their headers and their
    [per_page] parameter. *)
Definition request_events (tr : list Event)
    : list (string * gmap string string * option Z) :=
  omap (λ ev, match ev with EvRequest u h p => Some (u, h, p) | _ => None end) tr.

(** [calm m]: [m] sends no request, takes no answer, unpacks nothing and
    leaves the environment alone, however it ends. *)
Definition calm {A} (m : M A) : Prop :=
  ∀ w, request_events (trace (m w).2) = request_events (trace w)
       ∧ extracts_of (trace (m w).2) = extracts_of (trace w)
       ∧ transport (m w).2 = transport w
       ∧ environ (m w).2 = environ w.

(** The headers every function of the module starts from. *)
Definition accept : gmap string string :=
  {["Accept" := "application/vnd.github+json"]}.

(** The headers a run that starts in [w] sends: [accept] with what the
    resolver adds in [w]'s environment. *)
Definition resolved_headers (w : World) : gmap string string :=
  match (headers_try_to_add_authorization_from_environment accept w).1 with
  | Ret (headers, _) => headers
  | _ => accept
  end.

(** The addresses of the API. *)
Definition api_url (user_name repo rest : string) : string :=
  "https://api.github.com/repos/" +:+ user_name +:+ "/" +:+ repo +:+ rest.

(** The owner and the name [split_git_url] yields for [url], when it
    yields a pair. *)
Definition repo_of (urlparse : string → ParseResult.t) (url : string)
    : string * string :=
  match split "/" (ParseResult.path (urlparse url)) with
  | [_; user_name; repo] => (user_name, replace ".git" "" repo)
  | _ => ("", "")
  end.

(** A request to the API of the repository of [url], as a run that starts
    in [w] sends it. *)
Definition api_request (urlparse : string → ParseResult.t) (url : string)
    (w : World) (rest : string) (per_page : option Z)
    : string * gmap string string * option Z :=
  (api_url (repo_of urlparse url).1 (repo_of urlparse url).2 rest,
   resolved_headers w, per_page).

(** What [install_artifacts] does on leaving the loop. *)
Definition after_download (left_at : option Z) : M (option unit) :=
  match left_at with
  | None => mret None
  | Some attempts =>
      if decide (attempts = 3) then
        logging_error "gave up downloading zipfile";;
        exit 1
      else mret (Some tt)
  end.

(** * Properties *)

(** ** [unique] *)

Section unique_facts.
Context {A : Type} `{EqDecision A}.
Implicit Types (x y : A) (l acc : list A).

Lemma unique_loop_snoc acc l x :
  unique_loop acc (l ++ [x]) =
    if decide (x ∈ unique_loop acc l) then unique_loop acc l
    else unique_loop acc l ++ [x].
Proof.
  revert acc. induction l as [|y l IH]; intros acc; simpl.
  - reflexivity.
  - destruct (decide (y ∈ acc)); apply IH.
Qed.

Lemma unique_snoc l x :
  unique (l ++ [x]) = if decide (x ∈ unique l) then unique l else unique l ++ [x].
Proof. apply unique_loop_snoc. Qed.

Lemma unique_elem_of l x : x ∈ unique l ↔ x ∈ l.
Proof.
  induction l as [|y l IH] using rev_ind.
  - reflexivity.
  - rewrite unique_snoc. destruct (decide (y ∈ unique l)) as [Hin|Hnin].
    + rewrite elem_of_app, list_elem_of_singleton, IH.
      split; [tauto|]. intros [?| ->]; [done|]. by apply IH.
    + rewrite !elem_of_app, IH. reflexivity.
Qed.

Lemma unique_NoDup l : NoDup (unique l).
Proof.
  induction l as [|y l IH] using rev_ind.
  - constructor.
  - rewrite unique_snoc. destruct (decide (y ∈ unique l)); [done|].
    apply NoDup_app. split; [done|]. split.
    + intros z Hz ->%list_elem_of_singleton. done.
    + apply NoDup_singleton.
Qed.

Lemma unique_of_NoDup l : NoDup l → unique l = l.
Proof.
  induction l as [|y l IH] using rev_ind; [done|].
  intros (Hl & Hy & _)%NoDup_app. rewrite unique_snoc, IH by done.
  destruct (decide (y ∈ l)) as [Hin|]; [|done].
  exfalso. apply (Hy y Hin). by apply list_elem_of_singleton.
Qed.

Lemma index_of_elem_of x l : x ∈ l → ∃ i, index_of x l = Some i ∧ (i < length l)%nat.
Proof.
  induction l as [|y l IH]; [by intros ?%elem_of_nil|].
  intros Hin. simpl. destruct (decide (x = y)) as [->|Hne].
  - exists 0%nat. split; [done|]. simpl. lia.
  - apply elem_of_cons in Hin as [?|Hin]; [done|].
    destruct (IH Hin) as (i & -> & Hi). exists (S i). split; [done|].
    simpl. lia.
Qed.

Lemma index_of_app_l x l l' : x ∈ l → index_of x (l ++ l') = index_of x l.
Proof.
  induction l as [|y l IH]; [by intros ?%elem_of_nil|].
  intros Hin. simpl. destruct (decide (x = y)); [done|].
  apply elem_of_cons in Hin as [?|Hin]; [done|]. by rewrite IH.
Qed.

Lemma index_of_snoc_fresh x l : x ∉ l → index_of x (l ++ [x]) = Some (length l).
Proof.
  induction l as [|y l IH]; intros Hnin; simpl.
  - by rewrite decide_True.
  - apply not_elem_of_cons in Hnin as [Hne Hnin].
    rewrite decide_False by done. by rewrite IH.
Qed.

(** [index_of] is what it is named for: the least position holding [x]. *)
Lemma index_of_spec x l i :
  index_of x l = Some i ↔ l !! i = Some x ∧ ∀ k, (k < i)%nat → l !! k ≠ Some x.
Proof.
  revert i. induction l as [|y l IH]; intros i; simpl.
  - split; [done|]. by intros [? _].
  - destruct (decide (x = y)) as [->|Hne].
    + split.
      * intros [= <-]. split; [done|]. lia.
      * intros [Hi Hmin]. destruct i as [|i]; [done|].
        exfalso. apply (Hmin 0%nat); [lia|done].
    + rewrite fmap_Some. split.
      * intros (j & Hj & ->). apply IH in Hj as [Hj Hmin].
        split; [done|]. intros [|k] Hk; simpl; [congruence|].
        apply Hmin. lia.
      * intros [Hi Hmin]. destruct i as [|j]; simpl in Hi; [congruence|].
        exists j. split; [|done]. apply IH. split; [done|].
        intros k Hk. apply (Hmin (S k)). lia.
Qed.

Lemma unique_order l j1 j2 x y :
  (j1 < j2)%nat → unique l !! j1 = Some x → unique l !! j2 = Some y →
  ∃ i1 i2, index_of x l = Some i1 ∧ index_of y l = Some i2 ∧ (i1 < i2)%nat.
Proof.
  revert j1 j2 x y.
  induction l as [|z l IH] using rev_ind; intros j1 j2 x y Hlt H1 H2; [done|].
  rewrite unique_snoc in H1, H2.
  assert (∀ a j, unique l !! j = Some a → index_of a (l ++ [z]) = index_of a l)
    as Hstable.
  { intros a j Ha. apply index_of_app_l, unique_elem_of.
    exact (list_elem_of_lookup_2 _ _ _ Ha). }
  destruct (decide (z ∈ unique l)) as [Hin|Hnin].
  - destruct (IH _ _ _ _ Hlt H1 H2) as (i1 & i2 & Hi1 & Hi2 & Hi).
    exists i1, i2. by rewrite (Hstable _ _ H1), (Hstable _ _ H2).
  - assert (j1 < length (unique l))%nat as Hj1.
    { apply lookup_lt_Some in H2. rewrite length_app in H2. simpl in H2. lia. }
    rewrite lookup_app_l in H1 by done.
    destruct (decide (j2 < length (unique l))%nat) as [Hj2|Hj2].
    + rewrite lookup_app_l in H2 by done.
      destruct (IH _ _ _ _ Hlt H1 H2) as (i1 & i2 & Hi1 & Hi2 & Hi).
      exists i1, i2. by rewrite (Hstable _ _ H1), (Hstable _ _ H2).
    + rewrite lookup_app_r in H2 by lia.
      apply list_lookup_singleton_Some in H2 as [_ <-].
      pose proof (list_elem_of_lookup_2 _ _ _ H1) as Hx.
      apply (proj1 (unique_elem_of _ _)), index_of_elem_of in Hx
        as (i1 & Hi1 & Hlen).
      exists i1, (length l). rewrite (Hstable _ _ H1).
      rewrite index_of_snoc_fresh by (by rewrite <- unique_elem_of).
      done.
Qed.

(** C10: [unique l] holds every distinct element of [l] exactly once
    (it has no duplicates and the same members as [l]), in the order of
    the first occurrences in [l] (an element that stands before another
    in [unique l] has the smaller first index in [l]); so [unique] is
    idempotent, and it leaves a duplicate-free list as it is. *)
Theorem unique_first_occurrences l :
  NoDup (unique l)
  ∧ (∀ x, x ∈ unique l ↔ x ∈ l)
  ∧ (∀ j1 j2 x y,
       (j1 < j2)%nat → unique l !! j1 = Some x → unique l !! j2 = Some y →
       ∃ i1 i2, index_of x l = Some i1 ∧ index_of y l = Some i2 ∧ (i1 < i2)%nat)
  ∧ unique (unique l) = unique l
  ∧ (NoDup l → unique l = l).
Proof.
  split; [apply unique_NoDup|].
  split; [apply unique_elem_of|].
  split; [apply unique_order|].
  split; [apply unique_of_NoDup, unique_NoDup|apply unique_of_NoDup].
Qed.
End unique_facts.

Lemma unique_first_occurrences_witness :
  unique [3; 1; 3; 2; 1]%nat = [3; 1; 2]%nat
  ∧ (∃ i1 i2, index_of 1%nat [3; 1; 3; 2; 1]%nat = Some i1
              ∧ index_of 2%nat [3; 1; 3; 2; 1]%nat = Some i2 ∧ (i1 < i2)%nat)
  ∧ unique [3; 1; 2]%nat = [3; 1; 2]%nat.
Proof.
  split; [reflexivity|].
  pose proof (unique_first_occurrences [3; 1; 3; 2; 1]%nat) as (_ & _ & Hord & _).
  pose proof (unique_first_occurrences [3; 1; 2]%nat) as (_ & _ & _ & _ & Hfix).
  split.
  - apply (Hord 1%nat 2%nat); [lia|reflexivity|reflexivity].
  - apply Hfix. apply (bool_decide_unpack _). reflexivity.
Defined.

(** ** The commit matcher *)

Section matcher_facts.
Context {X : Type} (key value : X → string).

(** The dict holds, under each key, the value of the last entry with
    that key. *)
Lemma dict_comprehension_lookup (xs : list X) (k : string) :
  dict_comprehension key value xs !! k
  = value <$> last (filter (λ x, key x = k) xs).
Proof.
  unfold dict_comprehension.
  induction xs as [|x xs IH] using rev_ind; [done|].
  rewrite foldl_snoc, filter_app, lookup_insert.
  destruct (decide (key x = k)) as [Hk|Hk].
  - by rewrite filter_cons_True, filter_nil, last_snoc.
  - by rewrite filter_cons_False, filter_nil, app_nil_r.
Qed.

Lemma dict_comprehension_keys (xs : list X) (k : string) :
  is_Some (dict_comprehension key value xs !! k) ↔ ∃ x, x ∈ xs ∧ key x = k.
Proof.
  rewrite dict_comprehension_lookup, fmap_is_Some, last_is_Some. split.
  - intros Hne. destruct (filter _ xs) as [|x l] eqn:Hf; [done|].
    exists x. apply and_comm, (list_elem_of_filter (λ x, key x = k) xs).
    rewrite Hf. left.
  - intros (x & Hx & Hk) Hnil.
    by apply (filter_nil_not_elem_of _ _ x Hnil Hk).
Qed.
End matcher_facts.

Lemma first_commit_in_Some d commits v :
  first_commit_in d commits = Some v ↔ first_hit d commits v.
Proof.
  unfold first_hit. induction commits as [|c cs IH]; simpl.
  - split; [done|]. intros (pre & c & post & Heq & _). by destruct pre.
  - destruct (d !! Commit.sha c) as [u|] eqn:Hc.
    + split.
      * intros [= ->]. exists [], c, cs. by repeat split.
      * intros ([|c' pre] & c0 & post & Heq & Hpre & Hv); simplify_eq/=.
        -- congruence.
        -- apply Forall_cons in Hpre as [? _]. congruence.
    + rewrite IH. split.
      * intros (pre & c0 & post & -> & Hpre & Hv).
        exists (c :: pre), c0, post. split; [done|]. split; [|done].
        by constructor.
      * intros ([|c' pre] & c0 & post & Heq & Hpre & Hv); simplify_eq/=.
        apply Forall_cons in Hpre as [_ Hpre]. by exists pre, c0, post.
Qed.

Lemma first_commit_in_None d commits :
  first_commit_in d commits = None
  ↔ ∀ c, c ∈ commits → d !! Commit.sha c = None.
Proof.
  induction commits as [|c cs IH]; simpl.
  - split; [|done]. by intros _ c ?%elem_of_nil.
  - destruct (d !! Commit.sha c) as [u|] eqn:Hc.
    + split; [done|]. intros Hall. rewrite Hall in Hc; [done|left].
    + rewrite IH. split.
      * intros Hall c' [->|?]%elem_of_cons; auto.
      * intros Hall c' ?. apply Hall. by right.
Qed.

(** C1: both matchers build a dict from head sha to value in which the
    last entry with a given sha wins ([get_most_recent_action_page] takes
    the runs named gds), and return the value of the first commit, in the
    order given, whose sha is a key of that dict, or nothing when no commit
    sha is a key.  For commits c3, c2, c1 and artifacts for c1 (urlA) and
    c3 (urlC) the result is urlC. *)
Theorem most_recent_action_first_match
    (commits : list Commit.t) (artifacts : list Artifact.t) (runs : list Run.t) :
  let sha_of a := WorkflowRunRef.head_sha (Artifact.workflow_run a) in
  let urls := dict_comprehension sha_of Artifact.archive_download_url artifacts in
  let gds := filter (λ run, Run.name run = "gds") runs in
  let pages := dict_comprehension Run.head_sha Run.html_url gds in
  (∀ k, urls !! k
        = Artifact.archive_download_url <$> last (filter (λ a, sha_of a = k) artifacts))
  ∧ (∀ k, pages !! k
          = Run.html_url <$> last (filter (λ run, Run.head_sha run = k) gds))
  ∧ (∀ v, get_most_recent_action_url commits artifacts = Some v
          ↔ first_hit urls commits v)
  ∧ (get_most_recent_action_url commits artifacts = None
     ↔ ∀ c, c ∈ commits → urls !! Commit.sha c = None)
  ∧ (∀ v, get_most_recent_action_page commits runs = Some v
          ↔ first_hit pages commits v)
  ∧ (get_most_recent_action_page commits runs = None
     ↔ ∀ c, c ∈ commits → pages !! Commit.sha c = None)
  ∧ get_most_recent_action_url
      [Commit.mk "c3"; Commit.mk "c2"; Commit.mk "c1"]
      [Artifact.mk "GDS" (WorkflowRunRef.mk "c1") "urlA";
       Artifact.mk "GDS" (WorkflowRunRef.mk "c3") "urlC"] = Some "urlC".
Proof.
  intros sha_of urls gds pages.
  split; [apply dict_comprehension_lookup|].
  split; [apply dict_comprehension_lookup|].
  split; [intros v; apply first_commit_in_Some|].
  split; [apply first_commit_in_None|].
  split; [intros v; apply first_commit_in_Some|].
  split; [apply first_commit_in_None|].
  reflexivity.
Qed.

Lemma most_recent_action_first_match_witness :
  get_most_recent_action_url
    [Commit.mk "c3"; Commit.mk "c2"; Commit.mk "c1"]
    [Artifact.mk "GDS" (WorkflowRunRef.mk "c1") "urlA"] = Some "urlA"
  ∧ get_most_recent_action_page
      [Commit.mk "c3"; Commit.mk "c2"]
      [Run.mk "test" "c3" "pageT"; Run.mk "gds" "c1" "pageA"] = None.
Proof.
  pose proof (most_recent_action_first_match
    [Commit.mk "c3"; Commit.mk "c2"; Commit.mk "c1"]
    [Artifact.mk "GDS" (WorkflowRunRef.mk "c1") "urlA"]
    []) as (_ & _ & Hurl & _).
  pose proof (most_recent_action_first_match
    [Commit.mk "c3"; Commit.mk "c2"] []
    [Run.mk "test" "c3" "pageT"; Run.mk "gds" "c1" "pageA"])
    as (_ & _ & _ & _ & _ & Hpage & _).
  split.
  - apply Hurl. exists [Commit.mk "c3"; Commit.mk "c2"], (Commit.mk "c1"), [].
    split; [reflexivity|]. split; [|reflexivity].
    repeat constructor.
  - apply Hpage. intros c Hc.
    apply elem_of_cons in Hc as [->|Hc]; [reflexivity|].
    apply elem_of_cons in Hc as [->|Hc]; [reflexivity|].
    by apply elem_of_nil in Hc.
Defined.

(** ** Running monadic code *)

Lemma bind_run {A B} (m : M A) (f : A → M B) (w : World) :
  (m ≫= f) w
  = match m w with
    | (Ret a, w1) => f a w1
    | (Exit code, w1) => (Exit code, w1)
    | (Raise e, w1) => (Raise e, w1)
    end.
Proof. reflexivity. Qed.

(** A run of [m ≫= f] that ends in [r] either got through [m] and ended in
    [f], or stopped in [m]. *)
Lemma bind_inv {A B} (m : M A) (f : A → M B) (w : World) (r : Outcome B * World) :
  (m ≫= f) w = r →
  (∃ a w1, m w = (Ret a, w1) ∧ f a w1 = r)
  ∨ (∃ code, m w = (Exit code, r.2) ∧ r.1 = Exit code)
  ∨ (∃ e, m w = (Raise e, r.2) ∧ r.1 = Raise e).
Proof.
  rewrite bind_run. destruct (m w) as [[a|code|e] w1]; intros <-.
  - left. by exists a, w1.
  - right. left. by exists code.
  - right. right. by exists e.
Qed.

Lemma requests_of_snoc tr ev :
  requests_of (tr ++ [ev])
  = requests_of tr ++ match ev with EvRequest u _ _ => [u] | _ => [] end.
Proof. unfold requests_of. rewrite omap_app. by destruct ev. Qed.

Lemma sleeps_of_snoc tr ev :
  sleeps_of (tr ++ [ev])
  = sleeps_of tr ++ match ev with EvSleep d => [d] | _ => [] end.
Proof. unfold sleeps_of. rewrite omap_app. by destruct ev. Qed.

Lemma quiet_ret {A} (a : A) : quiet (mret a).
Proof. by intros w. Qed.

Lemma quiet_exit {A} code : quiet (@exit A code).
Proof. by intros w. Qed.

Lemma quiet_raise {A} e : quiet (@raise A e).
Proof. by intros w. Qed.

Lemma quiet_lift {A} (r : Exn + A) : quiet (lift r).
Proof. by destruct r. Qed.

Lemma quiet_bind {A B} (m : M A) (f : A → M B) :
  quiet m → (∀ a, quiet (f a)) → quiet (m ≫= f).
Proof.
  intros Hm Hf w. rewrite bind_run. specialize (Hm w).
  destruct (m w) as [[a|code|e] w1]; simpl in *; [|done..].
  destruct (Hf a w1) as [-> ->]. done.
Qed.

Lemma quiet_log lvl msg : quiet (emit (EvLog lvl msg)).
Proof. intros w. simpl. by rewrite requests_of_snoc, app_nil_r. Qed.

Lemma quiet_stderr msg : quiet (emit (EvStderr msg)).
Proof. intros w. simpl. by rewrite requests_of_snoc, app_nil_r. Qed.

Lemma quiet_extract d ms : quiet (emit (EvExtract d ms)).
Proof. intros w. simpl. by rewrite requests_of_snoc, app_nil_r. Qed.

Lemma quiet_getenv k d : quiet (os_getenv k d).
Proof. by intros w. Qed.

Lemma quiet_time : quiet time_time.
Proof. by intros w. Qed.

Lemma quiet_sleep d : quiet (time_sleep d).
Proof. intros w. simpl. by rewrite requests_of_snoc, app_nil_r. Qed.

Lemma quiet_json r : quiet (json r).
Proof. unfold json. destruct (body r); by intros w. Qed.

Lemma quiet_iter_commits j : quiet (iter_commits j).
Proof. by destruct j. Qed.

Lemma quiet_zip_extractall r d : quiet (zip_extractall r d).
Proof.
  unfold zip_extractall. destruct (body r); auto using quiet_raise, quiet_extract.
Qed.

Lemma quiet_py_ge v n : quiet (py_ge v n).
Proof. by destruct v. Qed.

Create HintDb quiet.
#[local] Hint Resolve quiet_ret quiet_exit quiet_raise quiet_lift quiet_log
  quiet_stderr quiet_extract quiet_getenv quiet_time quiet_sleep quiet_json
  quiet_iter_commits quiet_zip_extractall quiet_py_ge : quiet.

Ltac quiet_steps :=
  repeat first
    [ progress eauto with quiet
    | apply quiet_bind; [|intros ?]
    | match goal with
      | |- quiet (if ?b then _ else _) => destruct b
      | |- quiet (match ?x with _ => _ end) => destruct x
      | |- quiet (_ ;; _) => apply quiet_bind; [|intros ?]
      end ].

Lemma quiet_check_status r : quiet (check_status r).
Proof. unfold check_status, logging_error. quiet_steps. Qed.

Lemma quiet_check_rate_limit r : quiet (check_rate_limit r).
Proof.
  unfold check_rate_limit, logging_error, logging_info, logging_warning.
  quiet_steps.
Qed.

Lemma quiet_credentials headers :
  quiet (headers_try_to_add_authorization_from_environment headers).
Proof.
  unfold headers_try_to_add_authorization_from_environment. quiet_steps.
Qed.

Lemma quiet_split_git_url urlparse url : quiet (split_git_url urlparse url).
Proof. unfold split_git_url, logging_error. quiet_steps. Qed.

#[local] Hint Resolve quiet_check_status quiet_check_rate_limit
  quiet_credentials quiet_split_git_url : quiet.

(** ** [split_git_url] *)

Lemma split_length sep s : length (split sep s) = S (count_char sep s).
Proof.
  induction s as [|c s IH]; [done|]. simpl.
  destruct (decide (c = sep)); simpl; [by rewrite IH|].
  destruct (split sep s); simpl in *; lia.
Qed.

Lemma split_three sep s :
  count_char sep s = 2%nat ↔ ∃ a b c, split sep s = [a; b; c].
Proof.
  pose proof (split_length sep s) as Hlen. split.
  - intros Hc. rewrite Hc in Hlen.
    destruct (split sep s) as [|a [|b [|c [|]]]]; simplify_eq/=. eauto.
  - intros (a & b & c & Heq). rewrite Heq in Hlen. simpl in Hlen. lia.
Qed.

Lemma split_git_url_ok urlparse url w a user_name repo :
  split "/" (ParseResult.path (urlparse url)) = [a; user_name; repo] →
  split_git_url urlparse url w = (Ret (user_name, replace ".git" "" repo), w).
Proof. intros Heq. unfold split_git_url. by rewrite Heq. Qed.

Lemma split_git_url_fails urlparse url w :
  count_char "/" (ParseResult.path (urlparse url)) ≠ 2%nat →
  split_git_url urlparse url w
  = (Exit 1, logged_error w ("couldn't split repo from " +:+ url)).
Proof.
  intros Hc. unfold split_git_url.
  destruct (split "/" _) as [|a [|b [|c [|]]]] eqn:Heq; try reflexivity.
  exfalso. apply Hc, split_three. eauto.
Qed.

Lemma logged_error_quiet w msg :
  requests_of (trace (logged_error w msg)) = requests_of (trace w)
  ∧ transport (logged_error w msg) = transport w.
Proof. simpl. by rewrite requests_of_snoc, app_nil_r. Qed.

(** C4, as the code has it: [split_git_url] yields a pair exactly when the
    parsed path holds two slashes, that is when it splits into three
    pieces; the pieces themselves are not looked at.  On every other path
    it logs an error and exits with status 1, and so do its three callers,
    before any request is sent. *)
Theorem split_git_url_three_pieces urlparse url w :
  let path := ParseResult.path (urlparse url) in
  (count_char "/" path = 2%nat →
     ∃ a user_name repo,
       split "/" path = [a; user_name; repo]
       ∧ split_git_url urlparse url w
         = (Ret (user_name, replace ".git" "" repo), w))
  ∧ (count_char "/" path ≠ 2%nat →
     split_git_url urlparse url w
     = (Exit 1, logged_error w ("couldn't split repo from " +:+ url))
     ∧ (∀ file, exits_offline w (fetch_file_from_git urlparse url file w))
     ∧ (∀ fuel directory,
          exits_offline w (install_artifacts urlparse fuel url directory w))
     ∧ (∀ directory,
          exits_offline w (get_latest_action_url urlparse url directory w))).
Proof.
  intros path. split.
  - intros (a & b & c & Heq)%split_three. exists a, b, c.
    split; [done|]. by apply (split_git_url_ok _ _ _ a).
  - intros Hc. split; [by apply split_git_url_fails|].
    unfold exits_offline, fetch_file_from_git, install_artifacts,
      get_latest_action_url.
    repeat split; rewrite ?bind_run; simpl;
      rewrite ?bind_run, split_git_url_fails by done; simpl;
      rewrite ?requests_of_snoc, ?app_nil_r; done.
Qed.

Lemma split_git_url_three_pieces_witness :
  split_git_url urlparse_plain "https://github.com/acme/widget.git" (world ∅ 0 [])
  = (Ret ("acme", "widget"), world ∅ 0 [])
  ∧ exits_offline (world ∅ 0 [])
      (install_artifacts urlparse_plain 2 "https://github.com/acme" "gds"
         (world ∅ 0 [])).
Proof.
  split.
  - destruct (split_git_url_three_pieces urlparse_plain
      "https://github.com/acme/widget.git" (world ∅ 0 [])) as [Hok _].
    destruct (Hok eq_refl) as (a & u & r & Hsplit & ->).
    injection Hsplit as <- <- <-. reflexivity.
  - destruct (split_git_url_three_pieces urlparse_plain
      "https://github.com/acme" (world ∅ 0 [])) as [_ Hfail].
    destruct Hfail as (_ & _ & Hinstall & _); [by vm_compute|].
    apply Hinstall.
Defined.

(** Counterexample to C4 as stated: the path [/acme/] has an empty
    repository segment, and [split_git_url] returns a pair for it. *)
Lemma split_git_url_empty_segment :
  ParseResult.path (urlparse_plain "https://github.com/acme/") = "/acme/"
  ∧ split "/" "/acme/" = [""; "acme"; ""]
  ∧ split_git_url urlparse_plain "https://github.com/acme/" (world ∅ 0 [])
    = (Ret ("acme", ""), world ∅ 0 []).
Proof. repeat split. Qed.

(** C3 at a repository whose name holds [.git] inside: the segment
    [acme.github.io] does not end in [.git], and the name that comes back
    is [acmehub.io]: [replace] takes out every occurrence. *)
Theorem split_git_url_inner_dot_git :
  ParseResult.path (urlparse_plain "https://github.com/acme/acme.github.io")
  = "/acme/acme.github.io"
  ∧ endswith "acme.github.io" ".git" = false
  ∧ split_git_url urlparse_plain "https://github.com/acme/acme.github.io"
      (world ∅ 0 [])
    = (Ret ("acme", "acmehub.io"), world ∅ 0 []).
Proof. repeat split. Qed.

(** With and without the suffix, the same pair. *)
Example split_git_url_suffix_example :
  split_git_url urlparse_plain "https://github.com/acme/widget.git" (world ∅ 0 [])
  = split_git_url urlparse_plain "https://github.com/acme/widget" (world ∅ 0 []).
Proof. reflexivity. Qed.

(** *** What [replace] does to a trailing [.git] *)

Lemma append_nil_l (s : string) : "" +:+ s = s.
Proof. reflexivity. Qed.

Lemma prefix_cons a p b s :
  String.prefix (String a p) (String b s)
  = if ascii_dec a b then String.prefix p s else false.
Proof. reflexivity. Qed.

Lemma prefix_nil_l s : String.prefix "" s = true.
Proof. by destruct s. Qed.

Lemma append_cons c s t : String c s +:+ t = String c (s +:+ t).
Proof. reflexivity. Qed.

Ltac ascii_cases :=
  repeat match goal with
  | |- context [ascii_dec ?a ?b] =>
      destruct (ascii_dec a b); try discriminate; subst
  end.

Lemma prefix_dot_git_app s :
  s ≠ "" → String.prefix ".git" (s +:+ ".git") = String.prefix ".git" s.
Proof.
  intros Hs. destruct s as [|c0 [|c1 [|c2 [|c3 s]]]]; [done|..];
    rewrite ?append_cons, ?append_nil_l, ?prefix_cons; ascii_cases;
    rewrite ?prefix_cons; ascii_cases; try done; by rewrite !prefix_nil_l.
Qed.

Lemma prefix_dot_git_length s :
  String.prefix ".git" s = true → (4 ≤ String.length s)%nat.
Proof.
  destruct s as [|c0 [|c1 [|c2 [|c3 s]]]]; try done;
    rewrite ?prefix_cons; ascii_cases; rewrite ?prefix_cons; ascii_cases;
    try done; simpl; lia.
Qed.

Lemma replace_from_dot_git_suffix s k :
  (k ≤ String.length s)%nat →
  replace_from ".git" "" k (s +:+ ".git") = replace_from ".git" "" k s.
Proof.
  revert k. induction s as [|c s IH]; intros k Hk.
  - simpl in Hk. by replace k with 0%nat by lia.
  - destruct k as [|k].
    + change (String c s +:+ ".git") with (String c (s +:+ ".git")).
      cbn [replace_from].
      change (String c (s +:+ ".git")) with (String c s +:+ ".git").
      rewrite prefix_dot_git_app by done.
      destruct (String.prefix ".git" (String c s)) eqn:Hp.
      * apply prefix_dot_git_length in Hp. simpl in Hp.
        change (String.length ".git" - 1)%nat with 3%nat.
        rewrite IH by lia. done.
      * by rewrite IH by lia.
    + simpl. apply IH. simpl in Hk. lia.
Qed.

Lemma replace_dot_git_suffix s : replace ".git" "" (s +:+ ".git") = replace ".git" "" s.
Proof. apply replace_from_dot_git_suffix. lia. Qed.

(** Two paths that differ only in a [.git] at the end of the repository
    segment give the same pair. *)
Lemma split_git_url_suffix urlparse url url' w a a' owner repo :
  split "/" (ParseResult.path (urlparse url)) = [a; owner; repo] →
  split "/" (ParseResult.path (urlparse url')) = [a'; owner; repo +:+ ".git"] →
  split_git_url urlparse url' w = split_git_url urlparse url w.
Proof.
  intros H H'.
  rewrite (split_git_url_ok _ _ _ _ _ _ H), (split_git_url_ok _ _ _ _ _ _ H').
  by rewrite replace_dot_git_suffix.
Qed.

(** ** The download loop *)

Ltac run :=
  repeat (progress (rewrite ?bind_run;
                    cbn -[lookup insert default String.length pretty Z.add
                          Z.ltb Qred Qtrunc Qlt_bool inject_Z Qdiv Qplus
                          Qminus Qmult sys_maxsize];
                    rewrite ?(decide_False (P := _ = BadZipFile)) by discriminate;
                    rewrite ?(decide_True (P := _ = BadZipFile)) by reflexivity));
  unfold mret, M_ret.

(** One pass sends at most one request, and hands back either [break] with
    the counter as it was or a counter one higher. *)
Lemma download_attempt_spec url h d a w :
  let r := download_attempt url h d a w in
  (length (requests_of (trace r.2)) ≤ S (length (requests_of (trace w))))%nat
  ∧ (∀ brk a', r.1 = Ret (brk, a') →
       (brk = true ∧ a' = a) ∨ (brk = false ∧ a' = a + 1)).
Proof.
  unfold download_attempt, try_except, logging_debug, logging_warning,
    check_status, zip_extractall, logging_error.
  destruct url as [u|]; run;
    [destruct (transport w) as [|r rest]; run;
      [|destruct (decide (status_code r = 401)); run;
        [|destruct (body r); run]]|];
    rewrite ?requests_of_snoc, ?length_app, ?app_nil_r; simpl;
    (split; [lia|]); try done; intros ?? [= <- <-]; auto.
Qed.

(** The loop sends at most [max_attempts - attempts] requests. *)
Lemma download_loop_requests fuel url h d attempts max_attempts w :
  (length (requests_of (trace (download_loop fuel url h d attempts max_attempts w).2))
   ≤ length (requests_of (trace w)) + Z.to_nat (max_attempts - attempts))%nat.
Proof.
  revert attempts w. induction fuel as [|fuel IH]; intros attempts w; simpl;
    destruct (Z.ltb_spec attempts max_attempts) as [Hlt|Hge]; simpl; try lia.
  rewrite bind_run.
  pose proof (download_attempt_spec url h d attempts w) as [Hreq Hres].
  destruct (download_attempt url h d attempts w) as [[[brk a1]|code|e] w1];
    simpl in *; try lia.
  destruct (Hres _ _ eq_refl) as [[-> ->]|[-> ->]]; simpl; [lia|].
  etrans; [apply IH|]. lia.
Qed.

(** As called by [install_artifacts], with the counter starting at 1 and
    [max_attempts] at 3, the loop sends at most two requests. *)
Corollary download_loop_at_most_two_requests fuel url h d w :
  (length (requests_of (trace (download_loop fuel url h d 1 3 w).2))
   ≤ length (requests_of (trace w)) + 2)%nat.
Proof. apply (download_loop_requests fuel url h d 1 3 w). Qed.

(** The loop ends: [max_attempts - attempts] passes are enough, and more
    fuel changes nothing. *)
Lemma download_loop_fuel fuel url h d attempts max_attempts w :
  (Z.to_nat (max_attempts - attempts) ≤ fuel)%nat →
  download_loop fuel url h d attempts max_attempts w
  = download_loop (Z.to_nat (max_attempts - attempts)) url h d attempts max_attempts w
  ∧ (download_loop fuel url h d attempts max_attempts w).1 ≠ Ret None.
Proof.
  revert attempts w. induction fuel as [|fuel IH]; intros attempts w Hfuel.
  - replace (Z.to_nat (max_attempts - attempts)) with 0%nat by lia. simpl.
    destruct (Z.ltb_spec attempts max_attempts); [lia|done].
  - destruct (Z.ltb_spec attempts max_attempts) as [Hlt|Hge].
    + destruct (Z.to_nat (max_attempts - attempts)) as [|n] eqn:Hn; [lia|].
      simpl. rewrite (proj2 (Z.ltb_lt _ _) Hlt). rewrite !bind_run.
      pose proof (download_attempt_spec url h d attempts w) as [_ Hres].
      destruct (download_attempt url h d attempts w) as [[[brk a1]|code|e] w1];
        simpl in *; [|done..].
      destruct (Hres _ _ eq_refl) as [[-> ->]|[-> ->]]; [done|].
      replace n with (Z.to_nat (max_attempts - (attempts + 1))) by lia.
      destruct (IH (attempts + 1) w1) as [-> ?]; [lia|]. done.
    + replace (Z.to_nat (max_attempts - attempts)) with 0%nat by lia. simpl.
      rewrite (proj2 (Z.ltb_ge _ _) Hge). done.
Qed.

Lemma bind_ext_returns {A B} (m : M A) (f g : A → M (option B)) w :
  (∀ a w1, f a w1 = g a w1 ∧ (f a w1).1 ≠ Ret None) →
  (m ≫= f) w = (m ≫= g) w ∧ ((m ≫= f) w).1 ≠ Ret None.
Proof.
  intros Hfg. rewrite !bind_run.
  destruct (m w) as [[a|code|e] w1]; simpl; auto.
Qed.

(** Two units of fuel are enough for [install_artifacts]: more changes
    nothing, and the run never ends for want of fuel. *)
Lemma install_artifacts_fuel urlparse fuel url directory w :
  (2 ≤ fuel)%nat →
  install_artifacts urlparse fuel url directory w
  = install_artifacts urlparse 2 url directory w
  ∧ (install_artifacts urlparse fuel url directory w).1 ≠ Ret None.
Proof.
  intros Hfuel. unfold install_artifacts.
  repeat (apply bind_ext_returns; intros ? ?;
          try match goal with
              | |- context [let '(_, _) := ?p in _] => destruct p
              end).
  rewrite !bind_run.
  match goal with
  | |- context [download_loop fuel ?u ?h ?d 1 3 ?w0] =>
      destruct (download_loop_fuel fuel u h d 1 3 w0) as [-> Hsome];
        [simpl; lia|];
      change (Z.to_nat (3 - 1)) with 2%nat in *;
      destruct (download_loop 2 u h d 1 3 w0) as [[[attempts|]|code|e] wend]
  end; simpl in *; try done.
  by destruct (decide (attempts = 3)).
Qed.

(** C2 at two corrupt archives followed by a valid one: the loop counts
    from 1 and stops when the counter reaches 3, so the second failure ends
    it.  Two downloads are sent, the valid archive is still waiting in the
    transport, nothing is unpacked, and the run exits with status 1 after
    logging that it gave up. *)
Theorem install_artifacts_two_corrupt_then_valid (fuel : nat) :
  let commits := [Commit.mk "c3"; Commit.mk "c2"; Commit.mk "c1"] in
  let listing := {|
    artifacts := Some [Artifact.mk "GDS" (WorkflowRunRef.mk "c3") "urlC"];
    workflow_runs := None; content := None; encoding := None |} in
  let valid := response 200 (BZip [("tt_um_widget.gds", "GDSII")]) in
  let w := world ∅ 0
    [response 200 (BJson (JList commits)); response 200 (BJson (JDict listing));
     response 200 BOther; response 200 BOther; valid] in
  let r := install_artifacts urlparse_plain (S (S fuel))
             "https://github.com/acme/widget" "gds" w in
  r.1 = Exit 1
  ∧ requests_of (trace r.2)
    = ["https://api.github.com/repos/acme/widget/commits";
       "https://api.github.com/repos/acme/widget/actions/artifacts";
       "urlC"; "urlC"]
  ∧ extracts_of (trace r.2) = []
  ∧ transport r.2 = [valid]
  ∧ last (trace r.2) = Some (EvLog ERROR "gave up downloading zipfile").
Proof. destruct fuel; vm_compute; repeat split. Qed.

(** With one corrupt archive before the valid one the second download is
    unpacked and the run returns. *)
Example install_artifacts_one_corrupt_then_valid :
  let commits := [Commit.mk "c3"; Commit.mk "c2"; Commit.mk "c1"] in
  let listing := {|
    artifacts := Some [Artifact.mk "GDS" (WorkflowRunRef.mk "c3") "urlC"];
    workflow_runs := None; content := None; encoding := None |} in
  let members := [("tt_um_widget.gds", "GDSII")] in
  let w := world ∅ 0
    [response 200 (BJson (JList commits)); response 200 (BJson (JDict listing));
     response 200 BOther; response 200 (BZip members)] in
  let r := install_artifacts urlparse_plain 2
             "https://github.com/acme/widget" "gds" w in
  r.1 = Ret (Some tt)
  ∧ extracts_of (trace r.2) = [("gds", members)]
  ∧ transport r.2 = [].
Proof. vm_compute. repeat split. Qed.

(** ** Credentials *)

Lemma length_pos_iff (s : string) : (0 < String.length s)%nat ↔ s ≠ "".
Proof. destruct s; simpl; split; try done; lia. Qed.

(** The whole of the resolver in one equation. *)
Lemma credentials_run headers w :
  let token := if decide (getenv w "GH_TOKEN" = "") then getenv w "GITHUB_TOKEN"
               else getenv w "GH_TOKEN" in
  let user := if decide (getenv w "GH_USERNAME" = "") then getenv w "GITHUB_ACTOR"
              else getenv w "GH_USERNAME" in
  let password := getenv w "GH_PASSWORD" in
  headers_try_to_add_authorization_from_environment headers w
  = if decide (token ≠ "") then
      (Ret (<["authorization" := "Bearer " +:+ token]> headers, true), w)
    else if decide (user ≠ "" ∧ password ≠ "") then
      match encode_ascii (user +:+ ":" +:+ password) with
      | inr raw =>
          (Ret (<["authorization" := "Basic " +:+ b64encode raw]> headers, true), w)
      | inl e => (Raise e, w)
      end
    else (Ret (headers, false), stderr_warned w).
Proof.
  unfold headers_try_to_add_authorization_from_environment, os_getenv, getenv.
  run. repeat (case_decide; run); rewrite ?length_pos_iff in *;
    try (destruct (encode_ascii _); run); try done; try tauto; try congruence.
Qed.

Lemma encode_ascii_inr s raw : encode_ascii s = inr raw → raw = str_to_list s.
Proof. unfold encode_ascii. destruct (forallb _ _); congruence. Qed.

(** C7: a non-empty [GH_TOKEN], or with [GH_TOKEN] absent a non-empty
    [GITHUB_TOKEN], gives the Bearer header whatever else is set; a Basic
    header comes back only when neither token variable holds a non-empty
    value and both the user name ([GH_USERNAME], else [GITHUB_ACTOR]) and
    [GH_PASSWORD] are non-empty, and it is the base64 of [user:password];
    with none of the five variables set the headers come back unchanged
    with [False], after a warning and without an exception. *)
Theorem credentials_precedence headers w :
  let res := headers_try_to_add_authorization_from_environment headers w in
  (∀ token, token ≠ "" →
     environ w !! "GH_TOKEN" = Some token
     ∨ (environ w !! "GH_TOKEN" = None ∧ environ w !! "GITHUB_TOKEN" = Some token) →
     res = (Ret (<["authorization" := "Bearer " +:+ token]> headers, true), w))
  ∧ (∀ headers' value,
       res.1 = Ret (headers', true) →
       headers' !! "authorization" = Some ("Basic " +:+ value) →
       getenv w "GH_TOKEN" = "" ∧ getenv w "GITHUB_TOKEN" = ""
       ∧ ∃ user password,
           user ≠ "" ∧ password ≠ ""
           ∧ (getenv w "GH_USERNAME" = user
              ∨ (getenv w "GH_USERNAME" = "" ∧ getenv w "GITHUB_ACTOR" = user))
           ∧ getenv w "GH_PASSWORD" = password
           ∧ value = b64encode (str_to_list (user +:+ ":" +:+ password)))
  ∧ (environ w !! "GH_TOKEN" = None → environ w !! "GITHUB_TOKEN" = None →
     environ w !! "GH_USERNAME" = None → environ w !! "GITHUB_ACTOR" = None →
     environ w !! "GH_PASSWORD" = None →
     res = (Ret (headers, false), stderr_warned w)).
Proof.
  intros res. subst res. rewrite credentials_run. unfold getenv.
  split; [|split].
  - intros token Htok [Hgh|[Hgh Hgithub]].
    + rewrite Hgh. simpl. rewrite (decide_False (P := token = "")) by done.
      by rewrite decide_True.
    + rewrite Hgh, Hgithub. simpl. by rewrite decide_True.
  - intros headers' value.
    destruct (decide (default "" (environ w !! "GH_TOKEN") = "")) as [Hgh|Hgh].
    + destruct (decide (default "" (environ w !! "GITHUB_TOKEN") ≠ "")) as [Hgt|Hgt].
      * intros [= <-]. rewrite lookup_insert_eq. intros [=].
      * apply dec_stable in Hgt.
        destruct (decide (default "" (environ w !! "GH_USERNAME") = "")) as [Hu|Hu];
          (destruct (decide (_ ∧ _)) as [[Huser Hpw]|_]; [|done]);
          (destruct (encode_ascii _) as [e|raw] eqn:Henc; [done|]);
          apply encode_ascii_inr in Henc as ->;
          intros [= <-]; rewrite lookup_insert_eq; intros [= Hv]; rewrite !append_nil_l in Hv;
          subst value;
          (split; [done|]); (split; [done|]);
          eexists _, _; (split; [exact Huser|]); (split; [exact Hpw|]); auto.
    + rewrite decide_True by done.
      intros [= <-]. rewrite lookup_insert_eq. intros [=].
  - intros -> -> -> -> ->. reflexivity.
Qed.

Lemma credentials_precedence_witness :
  let accept : gmap string string := {["Accept" := "application/vnd.github+json"]} in
  let both : gmap string string :=
    <["GH_TOKEN" := "t0k3n"]> (<["GH_USERNAME" := "alice"]>
      (<["GH_PASSWORD" := "s3cret"]> ∅)) in
  let basic : gmap string string :=
    <["GITHUB_ACTOR" := "alice"]> (<["GH_PASSWORD" := "s3cret"]> ∅) in
  headers_try_to_add_authorization_from_environment accept (world both 0 [])
  = (Ret (<["authorization" := "Bearer t0k3n"]> accept, true), world both 0 [])
  ∧ (getenv (world basic 0 []) "GH_TOKEN" = ""
     ∧ getenv (world basic 0 []) "GITHUB_TOKEN" = ""
     ∧ ∃ user password,
         user ≠ "" ∧ password ≠ ""
         ∧ (getenv (world basic 0 []) "GH_USERNAME" = user
            ∨ (getenv (world basic 0 []) "GH_USERNAME" = ""
               ∧ getenv (world basic 0 []) "GITHUB_ACTOR" = user))
         ∧ getenv (world basic 0 []) "GH_PASSWORD" = password
         ∧ "YWxpY2U6czNjcmV0" = b64encode (str_to_list (user +:+ ":" +:+ password)))
  ∧ headers_try_to_add_authorization_from_environment accept (world ∅ 0 [])
    = (Ret (accept, false), stderr_warned (world ∅ 0 [])).
Proof.
  intros accept both basic.
  destruct (credentials_precedence accept (world both 0 [])) as (Hbearer & _ & _).
  destruct (credentials_precedence accept (world basic 0 [])) as (_ & Hbasic & _).
  destruct (credentials_precedence accept (world ∅ 0 [])) as (_ & _ & Hnone).
  split; [|split].
  - apply (Hbearer "t0k3n"); [discriminate|]. left. reflexivity.
  - apply (Hbasic (<["authorization" := "Basic YWxpY2U6czNjcmV0"]> accept));
      reflexivity.
  - apply Hnone; reflexivity.
Defined.

(** ** Status and rate limit *)

Lemma check_status_run r w :
  check_status r w
  = if decide (status_code r = 401)
    then (Exit 1, logged_error w
            "unauthorised, check INFO.md for information about GitHub API keys")
    else (Ret tt, w).
Proof. unfold check_status, logging_error. by case_decide. Qed.

Lemma Qlt_bool_spec x y : Qlt_bool x y = true ↔ (x < y)%Q.
Proof.
  unfold Qlt_bool. rewrite negb_true_iff. split.
  - intros H. apply Qnot_le_lt. intros Hle%Qle_bool_iff. congruence.
  - intros H. apply not_true_is_false. intros Hle%Qle_bool_iff.
    by apply Qlt_not_le in H.
Qed.

Lemma throttles_spec r now :
  throttles r now ↔
  (0 <? quota_remaining r) && (quota_remaining r <? 100)
    && (0 <? seconds_to_reset r now) = true
  ∧ Qlt_bool 0 (throttle_delay r now) && Qlt_bool (throttle_delay r now) 10 = true.
Proof.
  unfold throttles.
  rewrite !andb_true_iff, !Z.ltb_lt, !Qlt_bool_spec. tauto.
Qed.

(** A response with a [content-length] header never gets past the
    comparison of that header with [0]. *)
Lemma check_rate_limit_content_length r w s :
  content_length r = Some s → check_rate_limit r w = (Raise TypeError, w).
Proof. intros Hcl. unfold check_rate_limit. by rewrite Hcl. Qed.

(** On a response without a [content-length] header the delay is slept
    exactly under the specification's condition. *)
Lemma check_rate_limit_sleeps r w :
  content_length r = None →
  (throttles r (clock w) →
     sleeps_of (trace (check_rate_limit r w).2)
     = sleeps_of (trace w) ++ [throttle_delay r (clock w)])
  ∧ (¬ throttles r (clock w) →
     sleeps_of (trace (check_rate_limit r w).2) = sleeps_of (trace w)).
Proof.
  intros Hcl. rewrite throttles_spec.
  unfold throttle_delay, seconds_to_reset, quota_remaining.
  unfold check_rate_limit, logging_info, logging_warning, logging_error.
  rewrite Hcl. run.
  set (rem := default (-1) (x_ratelimit_remaining r)).
  set (when := if Qtrunc _ <? 0 then 0 else _).
  set (delay := Qred _).
  destruct (Qlt_bool (inject_Z rem) _); run;
    (destruct ((0 <? rem) && (rem <? 100) && (0 <? when)); run;
      [destruct (Qlt_bool 0 delay && Qlt_bool delay 10); run|]);
    destruct (decide (rem = 0)); run;
    rewrite ?sleeps_of_snoc, ?app_nil_r; split; intros H; try done;
    try (exfalso; apply H; done); try (by destruct H).
Qed.

(** The sentinel never throttles. *)
Lemma check_rate_limit_sentinel r w :
  x_ratelimit_remaining r = None →
  sleeps_of (trace (check_rate_limit r w).2) = sleeps_of (trace w).
Proof.
  intros Hrem. destruct (content_length r) as [s|] eqn:Hcl.
  - by rewrite (check_rate_limit_content_length r w s).
  - apply check_rate_limit_sleeps; [done|].
    unfold throttles, quota_remaining. rewrite Hrem. simpl. lia.
Qed.

(** How [check_rate_limit] ends on a response without a [content-length]
    header: with [exit(1)] when no request is left, else normally. *)
Lemma check_rate_limit_outcome r w :
  content_length r = None →
  (check_rate_limit r w).1
  = if decide (quota_remaining r = 0) then Exit 1 else Ret tt.
Proof.
  intros Hcl. unfold quota_remaining.
  unfold check_rate_limit, logging_info, logging_warning, logging_error.
  rewrite Hcl. run.
  set (rem := default (-1) (x_ratelimit_remaining r)).
  set (when := if Qtrunc _ <? 0 then 0 else _).
  set (delay := Qred _).
  destruct (Qlt_bool (inject_Z rem) _); run;
    (destruct ((0 <? rem) && (rem <? 100) && (0 <? when)); run;
      [destruct (Qlt_bool 0 delay && Qlt_bool delay 10); run|]);
    destruct (decide (rem = 0)); run; done.
Qed.

Lemma check_rate_limit_exhausted r w :
  content_length r = None → x_ratelimit_remaining r = Some 0 →
  (check_rate_limit r w).1 = Exit 1
  ∧ last (trace (check_rate_limit r w).2)
    = Some (EvLog ERROR "X-RateLimit no API requests remaining")
  ∧ sleeps_of (trace (check_rate_limit r w).2) = sleeps_of (trace w).
Proof.
  intros Hcl Hrem. split; [|split].
  - rewrite check_rate_limit_outcome by done. unfold quota_remaining.
    by rewrite Hrem.
  - unfold check_rate_limit, logging_info, logging_warning, logging_error.
    rewrite Hcl, Hrem. change (default (-1) (Some 0)) with 0.
    change (0 <? 0) with false. run.
    destruct (Qlt_bool _ _); run; rewrite decide_True by done; run;
      by rewrite last_snoc.
  - apply check_rate_limit_sleeps; [done|].
    unfold throttles, quota_remaining. rewrite Hrem. simpl. lia.
Qed.

(** C5 at a response with 50 requests left, 20 seconds to the reset and a
    [content-length] header: the specification's condition holds and the
    delay is 7/5 seconds, but [check_rate_limit] raises [TypeError] at the
    comparison of the header text with [0] and nothing is slept.  Without
    the header the same response sleeps the 7/5 seconds. *)
Theorem check_rate_limit_content_length_no_throttle :
  let r := {| status_code := 200;
              x_ratelimit_remaining := Some 50; x_ratelimit_limit := Some 1000;
              x_ratelimit_reset := Some 1020;
              content_type := Some "application/json; charset=utf-8";
              content_length := Some "1234"; body := BOther |} in
  let w := world ∅ 1000 [] in
  throttles r (clock w)
  ∧ throttle_delay r (clock w) = 7 # 5
  ∧ check_rate_limit r w = (Raise TypeError, w)
  ∧ sleeps_of (trace (check_rate_limit r w).2) = []
  ∧ sleeps_of (trace (check_rate_limit (quota_response 50 1000 1020) w).2) = [7 # 5].
Proof.
  intros r w. split; [|by vm_compute].
  apply throttles_spec. by vm_compute.
Qed.

(** C6 at a response that reports no request left and carries a
    [content-length] header: [check_rate_limit] raises [TypeError] before
    it looks at the quota, so the error is not logged and [exit(1)] is not
    reached.  Without the header the same response exits with status 1. *)
Theorem check_rate_limit_content_length_no_exit :
  let r := {| status_code := 403;
              x_ratelimit_remaining := Some 0; x_ratelimit_limit := Some 60;
              x_ratelimit_reset := Some 1020;
              content_type := Some "application/json; charset=utf-8";
              content_length := Some "280"; body := BOther |} in
  let w := world ∅ 1000 [] in
  check_rate_limit r w = (Raise TypeError, w)
  ∧ (check_rate_limit (quota_response 0 60 1020) w).1 = Exit 1.
Proof. by vm_compute. Qed.

(** [check_status] comes first at the call sites: a 401 answer whose quota
    headers would call for a delay ends the run before anything is slept,
    and no second request follows. *)
Example unauthorised_before_throttle :
  let r := {| status_code := 401;
              x_ratelimit_remaining := Some 50; x_ratelimit_limit := Some 1000;
              x_ratelimit_reset := Some 1020;
              content_type := None; content_length := None; body := BOther |} in
  let w := world ∅ 1000 [r; r; r] in
  let url := "https://github.com/acme/widget" in
  let fetched := fetch_file_from_git urlparse_plain url "info.yaml" w in
  let installed := install_artifacts urlparse_plain 2 url "gds" w in
  let resolved := get_latest_action_url urlparse_plain url "gds" w in
  throttles r (clock w)
  ∧ (fetched.1 = Exit 1 ∧ sent w fetched = 1%nat ∧ sleeps_of (trace fetched.2) = [])
  ∧ (installed.1 = Exit 1 ∧ sent w installed = 1%nat
     ∧ sleeps_of (trace installed.2) = [])
  ∧ (resolved.1 = Exit 1 ∧ sent w resolved = 1%nat
     ∧ sleeps_of (trace resolved.2) = []).
Proof.
  intros r w url fetched installed resolved.
  split; [apply throttles_spec; by vm_compute|]. by vm_compute.
Qed.

(** ** base64 *)

Lemma b64_alphabet_get (i : nat) :
  match String.get i b64_alphabet with
  | Some c => is_ascii c = true ∧ b64_value c = Some (N.of_nat i) ∧ c ≠ "="%char
  | None => (64 ≤ i)%nat
  end.
Proof.
  do 64 (destruct i as [|i]; [by vm_compute|]). simpl. lia.
Qed.

Lemma b64_char_spec (n : N) :
  (n < 64)%N →
  is_ascii (b64_char n) = true ∧ b64_value (b64_char n) = Some n
  ∧ b64_char n ≠ "="%char.
Proof.
  intros Hn. unfold b64_char.
  pose proof (b64_alphabet_get (N.to_nat n)) as H.
  destruct (String.get _ _) as [c|]; [|lia].
  by rewrite N2Nat.id in H.
Qed.

Lemma b64_char_ascii (n : N) : is_ascii (b64_char n) = true.
Proof.
  unfold b64_char. pose proof (b64_alphabet_get (N.to_nat n)) as H.
  destruct (String.get _ _) as [c|]; [tauto|done].
Qed.

Lemma a2b_step c v data quad_pos leftchar pads out :
  b64_value c = Some v → c ≠ "="%char →
  a2b_base64 (String c data) quad_pos leftchar pads out
  = match quad_pos with
    | 0%nat => a2b_base64 data 1 v 0 out
    | 1%nat => a2b_base64 data 2 (v mod 16)%N 0 (out ++ [ascii_of_N (leftchar * 4 + v / 16)])
    | 2%nat => a2b_base64 data 3 (v mod 4)%N 0 (out ++ [ascii_of_N (leftchar * 16 + v / 4)])
    | _ => a2b_base64 data 0 0%N 0 (out ++ [ascii_of_N (leftchar * 64 + v)])
    end.
Proof. intros Hv Hc. simpl. rewrite decide_False by done. by rewrite Hv. Qed.

Local Ltac Zify.zify_post_hook ::= Z.to_euclidean_division_equations.

Lemma N_of_ascii_lt a : (N_of_ascii a < 256)%N.
Proof. destruct a as [[] [] [] [] [] [] [] []]; by vm_compute. Qed.

Lemma a2b_base64_b64encode (s : bytes) : ∀ out,
  a2b_base64 (b64encode s) 0 0%N 0 out = Some (out ++ s).
Proof.
  assert (∀ n (s : bytes), (length s ≤ n)%nat → ∀ out,
    a2b_base64 (b64encode s) 0 0%N 0 out = Some (out ++ s)) as H; [|by eauto].
  clear s. induction n as [|n IH]; intros s Hlen out.
  { destruct s; [|simpl in Hlen; lia]. simpl. by rewrite app_nil_r. }
  destruct s as [|a [|b [|c rest]]].
  - simpl. by rewrite app_nil_r.
  - pose proof (N_of_ascii_lt a). cbn [b64encode].
    set (k := (N_of_ascii a * 65536)%N).
    destruct (b64_char_spec (k / 262144)) as (_ & V0 & E0); [lia|].
    destruct (b64_char_spec ((k / 4096) mod 64)) as (_ & V1 & E1); [lia|].
    rewrite (a2b_step _ _ _ _ _ _ _ V0 E0), (a2b_step _ _ _ _ _ _ _ V1 E1).
    simpl. f_equal. f_equal. f_equal.
    rewrite <- (ascii_N_embedding a). f_equal. lia.
  - pose proof (N_of_ascii_lt a). pose proof (N_of_ascii_lt b). cbn [b64encode].
    set (k := (N_of_ascii a * 65536 + N_of_ascii b * 256)%N).
    destruct (b64_char_spec (k / 262144)) as (_ & V0 & E0); [lia|].
    destruct (b64_char_spec ((k / 4096) mod 64)) as (_ & V1 & E1); [lia|].
    destruct (b64_char_spec ((k / 64) mod 64)) as (_ & V2 & E2); [lia|].
    rewrite (a2b_step _ _ _ _ _ _ _ V0 E0), (a2b_step _ _ _ _ _ _ _ V1 E1),
      (a2b_step _ _ _ _ _ _ _ V2 E2).
    simpl. rewrite <- app_assoc. simpl. f_equal. f_equal.
    rewrite <- (ascii_N_embedding a), <- (ascii_N_embedding b) at 1.
    f_equal; [f_equal; lia|]. f_equal. f_equal. lia.
  - pose proof (N_of_ascii_lt a). pose proof (N_of_ascii_lt b).
    pose proof (N_of_ascii_lt c). cbn [b64encode].
    set (k := (N_of_ascii a * 65536 + N_of_ascii b * 256 + N_of_ascii c)%N).
    destruct (b64_char_spec (k / 262144)) as (_ & V0 & E0); [lia|].
    destruct (b64_char_spec ((k / 4096) mod 64)) as (_ & V1 & E1); [lia|].
    destruct (b64_char_spec ((k / 64) mod 64)) as (_ & V2 & E2); [lia|].
    destruct (b64_char_spec (k mod 64)) as (_ & V3 & E3); [lia|].
    rewrite (a2b_step _ _ _ _ _ _ _ V0 E0), (a2b_step _ _ _ _ _ _ _ V1 E1),
      (a2b_step _ _ _ _ _ _ _ V2 E2), (a2b_step _ _ _ _ _ _ _ V3 E3).
    rewrite IH by (simpl in Hlen; lia).
    rewrite <- !app_assoc. simpl. f_equal. f_equal.
    rewrite <- (ascii_N_embedding a), <- (ascii_N_embedding b),
      <- (ascii_N_embedding c) at 1.
    f_equal; [f_equal; lia|]. f_equal; [f_equal; lia|]. f_equal. f_equal. lia.
Qed.

Lemma b64encode_ascii (s : bytes) :
  forallb is_ascii (str_to_list (b64encode s)) = true.
Proof.
  assert (∀ n (s : bytes), (length s ≤ n)%nat →
    forallb is_ascii (str_to_list (b64encode s)) = true) as H; [|by eauto].
  clear s. induction n as [|n IH]; intros s Hlen.
  { by destruct s; [|simpl in Hlen; lia]. }
  destruct s as [|a [|b [|c rest]]]; cbn [b64encode str_to_list forallb];
    rewrite ?b64_char_ascii; try done.
  apply IH. simpl in Hlen. lia.
Qed.

(** Decoding undoes encoding. *)
Lemma b64decode_b64encode (s : bytes) : b64decode (b64encode s) = inr s.
Proof.
  unfold b64decode. by rewrite b64encode_ascii, a2b_base64_b64encode.
Qed.

(** ** [fetch_file_from_git] *)

Lemma requests_get_run u h p w :
  requests_get (Some u) h p w
  = (match transport w with [] => Raise ConnectionError | r :: _ => Ret r end,
     {| environ := environ w; clock := clock w; transport := tail (transport w);
        trace := trace w ++ [EvRequest u h p] |}).
Proof. unfold requests_get. by destruct (transport w). Qed.

(** Once the request has gone out and its answer [r] is past the status
    and quota checks, the result is read off the parsed answer. *)
Lemma fetch_file_from_git_run urlparse git_url file w r rest :
  transport w = r :: rest →
  let res := fetch_file_from_git urlparse git_url file w in
  requests_of (trace res.2) ≠ requests_of (trace w) →
  status_code r ≠ 401 → content_length r = None → quota_remaining r ≠ 0 →
  ∀ data, body r = BJson data →
  res.1 = match data with
          | JList _ => Ret None
          | JDict d =>
              match content d with
              | None => Ret None
              | Some text =>
                  if decide (encoding d = Some "base64") then decoded text
                  else Ret (Some (Str text))
              end
          end.
Proof.
  intros Htr res Hsent Hst Hcl Hq data Hbody. subst res.
  unfold fetch_file_from_git in *.
  destruct (decide (count_char "/" (ParseResult.path (urlparse git_url)) = 2%nat))
    as [Hc|Hc].
  2:{ exfalso. apply Hsent. rewrite bind_run, split_git_url_fails by done.
      simpl. by rewrite requests_of_snoc, app_nil_r. }
  apply split_three in Hc as (a & user_name & repo & Hsplit).
  rewrite bind_run, (split_git_url_ok _ _ _ _ _ _ Hsplit) in Hsent |- *.
  rewrite bind_run in Hsent |- *.
  pose proof (quiet_credentials {["Accept" := "application/vnd.github+json"]} w)
    as [Hreq Htrans].
  destruct (headers_try_to_add_authorization_from_environment _ w)
    as [[[headers b]|code|e] w1]; simpl in Hreq, Htrans;
    [|exfalso; by apply Hsent..].
  rewrite !bind_run. unfold logging_debug at 1. cbn [emit].
  rewrite bind_run, requests_get_run. cbn [transport trace]. rewrite Htrans, Htr.
  rewrite bind_run, check_status_run, decide_False by done.
  rewrite bind_run.
  pose proof (check_rate_limit_outcome r) as Hout.
  match goal with |- context [check_rate_limit r ?w2] =>
    specialize (Hout w2 Hcl); destruct (check_rate_limit r w2) as [o w3] end.
  simpl in Hout. rewrite decide_False in Hout by done. subst o.
  rewrite bind_run. unfold json. rewrite Hbody. simpl.
  destruct data as [items|d]; [done|].
  destruct (content d) as [text|]; [|done].
  destruct (decide (encoding d = Some "base64")); [|done].
  rewrite bind_run. unfold decoded. by destruct (b64decode text).
Qed.

(** What [fetch_file_from_git] returns.  For an answer that was received,
    carries no [content-length] header, passed the status and quota checks
    and parsed as JSON, it returns nothing when there is no [content]
    field (a JSON array has none), the base64 decoding of [content] when
    [encoding] is base64, and [content] as it is otherwise. *)
Theorem fetch_file_from_git_content urlparse git_url file w r rest data :
  transport w = r :: rest →
  let res := fetch_file_from_git urlparse git_url file w in
  requests_of (trace res.2) ≠ requests_of (trace w) →
  status_code r ≠ 401 → content_length r = None → quota_remaining r ≠ 0 →
  body r = BJson data →
  ((∃ items, data = JList items) ∨ (∃ d, data = JDict d ∧ content d = None) →
     res.1 = Ret None)
  ∧ (∀ d text, data = JDict d → content d = Some text →
       encoding d = Some "base64" → res.1 = decoded text)
  ∧ (∀ d text, data = JDict d → content d = Some text →
       encoding d ≠ Some "base64" → res.1 = Ret (Some (Str text)))
  ∧ (∀ payload d, data = JDict d → content d = Some (b64encode payload) →
       encoding d = Some "base64" → res.1 = Ret (Some (Bytes payload))).
Proof.
  intros Htr res Hsent Hst Hcl Hq Hbody.
  pose proof (fetch_file_from_git_run urlparse git_url file w r rest
                Htr Hsent Hst Hcl Hq data Hbody) as Hrun.
  fold res in Hrun. rewrite Hrun. repeat split.
  - intros [[items ->]|(d & -> & ->)]; done.
  - intros d text -> -> Henc. by rewrite decide_True.
  - intros d text -> -> Henc. by rewrite decide_False.
  - intros payload d -> -> Henc. rewrite decide_True by done.
    unfold decoded. by rewrite b64decode_b64encode.
Qed.

(** ** [install_artifacts] *)

Lemma quiet_run {A} (m : M A) w o w1 :
  quiet m → m w = (o, w1) →
  requests_of (trace w1) = requests_of (trace w) ∧ transport w1 = transport w.
Proof. intros Hq Hm. specialize (Hq w). by rewrite Hm in Hq. Qed.

Lemma requests_get_inv u h p w o w1 :
  requests_get (Some u) h p w = (o, w1) →
  requests_of (trace w1) = requests_of (trace w) ++ [u]
  ∧ ((o = Raise ConnectionError ∧ transport w = [])
     ∨ (∃ r, o = Ret r ∧ transport w = r :: transport w1)).
Proof.
  rewrite requests_get_run. intros [= <- <-]. simpl.
  rewrite requests_of_snoc. split; [done|].
  destruct (transport w) as [|r rest]; [left|right]; eauto.
Qed.

#[local] Hint Unfold logging_debug logging_error logging_info logging_warning : quiet.

Ltac chase :=
  repeat match goal with
  | H : requests_of (trace _) = _ |- _ => rewrite H
  end;
  rewrite ?length_app; simpl.

Tactic Notation "qstep" hyp(H) "as" simple_intropattern(a) ident(w1) :=
  let Hm := fresh "Hm" in
  apply bind_inv in H as [(a & w1 & Hm & H) | [(? & Hm & ?) | (? & Hm & ?)]];
  (apply quiet_run in Hm as [? ?];
   [|solve [repeat autounfold with quiet; quiet_steps]]).

Tactic Notation "rstep" hyp(H) "as" ident(r) ident(w1) :=
  let Hm := fresh "Hm" in
  apply bind_inv in H as [(r & w1 & Hm & H) | [(? & Hm & ?) | (? & Hm & ?)]];
  let Ho := fresh "Ho" in
  apply requests_get_inv in Hm as [? [[Ho ?]|(? & Ho & ?)]];
  try discriminate Ho; try (injection Ho as <-).

Lemma install_artifacts_cases urlparse fuel url directory w :
  let res := install_artifacts urlparse fuel url directory w in
  (sent w res ≤ 1)%nat
  ∨ (sent w res = 2%nat ∧ ∃ r1, transport w = [r1])
  ∨ ∃ r1 r2 rest, transport w = r1 :: r2 :: rest ∧
      ((status_code r2 = 401 ∧ sent w res = 2%nat)
       ∨ (status_code r2 ≠ 401 ∧ (∀ data, body r2 ≠ BJson data) ∧ sent w res = 2%nat)
       ∨ (status_code r2 ≠ 401 ∧ ∃ data, body r2 = BJson data ∧
            ((no_artifacts data ∧ res.1 = Exit 1 ∧ sent w res = 2%nat
              ∧ last (trace res.2) = Some (EvLog ERROR ("no artifact found for " +:+ url)))
             ∨ ∃ d all, data = JDict d ∧ artifacts d = Some all ∧
                 ((gds_artifacts all = [] ∧ res.1 = Exit 1 ∧ sent w res = 2%nat
                   ∧ last (trace res.2) = Some (EvLog ERROR "no artifacts for this project"))
                  ∨ gds_artifacts all ≠ [])))).
Proof.
  intros res. unfold sent.
  remember res as res' eqn:H. subst res. symmetry in H. rename res' into res.
  unfold install_artifacts in H.
  qstep H as [] w0; [|left; chase; lia..].
  qstep H as [user_name repo] w1; [|left; chase; lia..].
  qstep H as [headers b] w2; [|left; chase; lia..].
  rstep H as r1 w3; [|left; chase; lia].
  qstep H as [] w4; [|left; chase; lia..].
  qstep H as [] w5; [|left; chase; lia..].
  qstep H as commits w6; [|left; chase; lia..].
  rstep H as r2 w7.
  2:{ right; left. chase. split; [lia|]. exists r1. congruence. }
  assert (transport w = r1 :: r2 :: transport w7) as Htr by congruence.
  assert (length (requests_of (trace w7)) = 2 + length (requests_of (trace w)))%nat
    as Hlen by (chase; lia).
  clear H0 H1 H2 H3 H4 H5 H6 H7 H8 H9 H10 H11 H12 H13 H14 H15.
  right; right. exists r1, r2, (transport w7). split; [done|].
  rewrite bind_run, check_status_run in H.
  destruct (decide (status_code r2 = 401)) as [Hst|Hst].
  { left. split; [done|]. subst res. simpl. rewrite requests_of_snoc, app_nil_r. lia. }
  right. rewrite bind_run in H. unfold json at 1 in H.
  destruct (body r2) as [data| |] eqn:Hbody;
    [|left; (split; [done|]); (split; [done|]); subst res; simpl; lia..].
  right. split; [done|]. exists data. split; [done|].
  cbn [mret M_ret] in H.
  destruct data as [items|[[all|] wr c e]].
  - left. subst res. simpl. rewrite last_snoc, requests_of_snoc, app_nil_r.
    repeat split; lia.
  - right. eexists _, all. split; [done|]. split; [done|].
    unfold gds_artifacts.
    rewrite !bind_run in H. cbn [logging_debug emit mret M_ret] in H.
    destruct (decide (length (filter (λ a, Artifact.name a = "GDS") all) = 0%nat))
      as [Hnil|Hnil].
    + left. apply nil_length_inv in Hnil. split; [done|].
      subst res. simpl. rewrite last_snoc, !requests_of_snoc, !app_nil_r.
      repeat split; lia.
    + right. intros Heq. by rewrite Heq in Hnil.
  - left. subst res. simpl. rewrite last_snoc, requests_of_snoc, app_nil_r.
    repeat split; lia.
Qed.

(** C8: when the artifacts answer has been received, is not a 401 and
    parses, a missing artifacts collection ends the run with [exit(1)]
    after the error "no artifact found", and a collection without an entry
    named GDS ends it with [exit(1)] after "no artifacts for this project",
    in both cases with no request beyond the two listings; a third request,
    the download, is only ever sent when the collection holds an artifact
    named GDS. *)
Theorem install_artifacts_needs_gds urlparse fuel url directory w :
  let res := install_artifacts urlparse fuel url directory w in
  (∀ r1 r2 rest data,
     transport w = r1 :: r2 :: rest → (2 ≤ sent w res)%nat →
     status_code r2 ≠ 401 → body r2 = BJson data → no_artifacts data →
     res.1 = Exit 1 ∧ sent w res = 2%nat
     ∧ last (trace res.2) = Some (EvLog ERROR ("no artifact found for " +:+ url)))
  ∧ (∀ r1 r2 rest d all,
       transport w = r1 :: r2 :: rest → (2 ≤ sent w res)%nat →
       status_code r2 ≠ 401 → body r2 = BJson (JDict d) →
       artifacts d = Some all → gds_artifacts all = [] →
       res.1 = Exit 1 ∧ sent w res = 2%nat
       ∧ last (trace res.2) = Some (EvLog ERROR "no artifacts for this project"))
  ∧ ((3 ≤ sent w res)%nat →
     ∃ r1 r2 rest d all,
       transport w = r1 :: r2 :: rest ∧ body r2 = BJson (JDict d)
       ∧ artifacts d = Some all ∧ gds_artifacts all ≠ []).
Proof.
  intros res.
  pose proof (install_artifacts_cases urlparse fuel url directory w) as Hcases.
  fold res in Hcases. split; [|split].
  - intros r1 r2 rest data Htr Hsent Hst Hbody Hno.
    destruct Hcases as [?|[[_ [? ?]]|(r1' & r2' & rest' & Htr' & Hc)]];
      [lia|congruence|].
    rewrite Htr in Htr'. injection Htr' as <- <- <-.
    destruct Hc as [[? _]|[(_ & Hb & _)|(_ & data' & Hbody' & Hc)]];
      [done|by destruct (Hb data)|].
    rewrite Hbody in Hbody'. injection Hbody' as <-.
    destruct Hc as [(_ & ? & ? & ?)|(d & all & -> & Hall & _)]; [done|].
    simpl in Hno. congruence.
  - intros r1 r2 rest d all Htr Hsent Hst Hbody Hall Hnil.
    destruct Hcases as [?|[[_ [? ?]]|(r1' & r2' & rest' & Htr' & Hc)]];
      [lia|congruence|].
    rewrite Htr in Htr'. injection Htr' as <- <- <-.
    destruct Hc as [[? _]|[(_ & Hb & _)|(_ & data' & Hbody' & Hc)]];
      [done|by destruct (Hb (JDict d))|].
    rewrite Hbody in Hbody'. injection Hbody' as <-.
    destruct Hc as [(Hno & _)|(d' & all' & [= <-] & Hall' & Hc)].
    { simpl in Hno. congruence. }
    rewrite Hall in Hall'. injection Hall' as <-.
    destruct Hc as [(_ & ? & ? & ?)|?]; done.
  - intros Hsent.
    destruct Hcases as [?|[[? _]|(r1 & r2 & rest & Htr & Hc)]]; [lia..|].
    destruct Hc as [[_ ?]|[(_ & _ & ?)|(_ & data & Hbody & Hc)]]; [lia..|].
    destruct Hc as [(_ & _ & ? & _)|(d & all & -> & Hall & Hc)]; [lia|].
    destruct Hc as [(_ & _ & ? & _)|Hne]; [lia|].
    by exists r1, r2, rest, d, all.
Qed.

Lemma install_artifacts_needs_gds_witness :
  let url := "https://github.com/acme/widget" in
  let listing arts :=
    response 200 (BJson (JDict {| artifacts := arts; workflow_runs := None;
                                  content := None; encoding := None |})) in
  let commits := response 200 (BJson (JList [Commit.mk "c1"])) in
  let docs := Artifact.mk "docs" (WorkflowRunRef.mk "c1") "urlD" in
  let gds := Artifact.mk "GDS" (WorkflowRunRef.mk "c1") "urlA" in
  let zip := response 200 (BZip [("tt_um_widget.gds", "GDSII")]) in
  (install_artifacts urlparse_plain 2 url "gds"
     (world ∅ 0 [commits; listing None])).1 = Exit 1
  ∧ (install_artifacts urlparse_plain 2 url "gds"
       (world ∅ 0 [commits; listing (Some [docs])])).1 = Exit 1
  ∧ ∃ r1 r2 rest d all,
      [commits; listing (Some [docs; gds]); zip] = r1 :: r2 :: rest
      ∧ body r2 = BJson (JDict d)
      ∧ artifacts d = Some all ∧ gds_artifacts all ≠ [].
Proof.
  intros url listing commits docs gds zip.
  destruct (install_artifacts_needs_gds urlparse_plain 2 url "gds"
              (world ∅ 0 [commits; listing None])) as (Hnone & _ & _).
  destruct (install_artifacts_needs_gds urlparse_plain 2 url "gds"
              (world ∅ 0 [commits; listing (Some [docs])])) as (_ & Hother & _).
  destruct (install_artifacts_needs_gds urlparse_plain 2 url "gds"
              (world ∅ 0 [commits; listing (Some [docs; gds]); zip]))
    as (_ & _ & Hgds).
  split; [|split].
  - eapply Hnone; [reflexivity|vm_compute; lia|discriminate|reflexivity|reflexivity].
  - eapply Hother;
      [reflexivity|vm_compute; lia|discriminate|reflexivity|reflexivity|reflexivity].
  - apply Hgds. vm_compute. lia.
Defined.

Lemma fetch_file_from_git_content_witness :
  let answer c e :=
    response 200 (BJson (JDict {| artifacts := None; workflow_runs := None;
                                  content := c; encoding := e |})) in
  (fetch_file_from_git urlparse_plain "https://github.com/acme/widget" "info.yaml"
     (world ∅ 0 [answer (Some "aGVsbG8=") (Some "base64")])).1
  = Ret (Some (Bytes (str_to_list "hello")))
  ∧ (fetch_file_from_git urlparse_plain "https://github.com/acme/widget" "info.yaml"
       (world ∅ 0 [answer None None])).1 = Ret None
  ∧ (fetch_file_from_git urlparse_plain "https://github.com/acme/widget" "info.yaml"
       (world ∅ 0 [answer (Some "hello") None])).1 = Ret (Some (Str "hello")).
Proof.
  intros answer.
  split; [|split].
  - edestruct (fetch_file_from_git_content urlparse_plain
        "https://github.com/acme/widget" "info.yaml"
        (world ∅ 0 [answer (Some "aGVsbG8=") (Some "base64")]))
      as (_ & Hb64 & _ & _);
      [reflexivity|vm_compute; discriminate|discriminate|reflexivity
      |vm_compute; discriminate|reflexivity|].
    exact (Hb64 _ "aGVsbG8=" eq_refl eq_refl eq_refl).
  - edestruct (fetch_file_from_git_content urlparse_plain
        "https://github.com/acme/widget" "info.yaml"
        (world ∅ 0 [answer None None]))
      as (Hnone & _ & _ & _);
      [reflexivity|vm_compute; discriminate|discriminate|reflexivity
      |vm_compute; discriminate|reflexivity|].
    apply Hnone. right. eexists. split; reflexivity.
  - edestruct (fetch_file_from_git_content urlparse_plain
        "https://github.com/acme/widget" "info.yaml"
        (world ∅ 0 [answer (Some "hello") None]))
      as (_ & _ & Hstr & _);
      [reflexivity|vm_compute; discriminate|discriminate|reflexivity
      |vm_compute; discriminate|reflexivity|].
    apply (Hstr _ "hello" eq_refl eq_refl). discriminate.
Defined.

(** C9 at an answer that carries a [content-length] header, as the
    answers of the API do: the request goes out and the answer parses, with
    a [content] in base64 that decodes to [hello], but [check_rate_limit]
    raises [TypeError] at the comparison of the header text with [0] and
    [fetch_file_from_git] returns nothing at all.  It is so for every
    parsed answer and every text of the header; without the header the
    same answer gives the decoded bytes. *)
Theorem fetch_file_from_git_content_length :
  let answer len data :=
    {| status_code := 200;
       x_ratelimit_remaining := Some 4999; x_ratelimit_limit := Some 5000;
       x_ratelimit_reset := Some 4600;
       content_type := Some "application/json; charset=utf-8";
       content_length := len; body := BJson data |} in
  let file := JDict {| artifacts := None; workflow_runs := None;
                       content := Some "aGVsbG8="; encoding := Some "base64" |} in
  let run len data :=
    fetch_file_from_git urlparse_plain "https://github.com/acme/widget"
      "info.yaml" (world ∅ 1000 [answer len data]) in
  (run (Some "180") file).1 = Raise TypeError
  ∧ requests_of (trace (run (Some "180") file).2)
    = ["https://api.github.com/repos/acme/widget/contents/info.yaml"]
  ∧ transport (run (Some "180") file).2 = []
  ∧ b64decode "aGVsbG8=" = inr (str_to_list "hello")
  ∧ (run None file).1 = Ret (Some (Bytes (str_to_list "hello")))
  ∧ ∀ len data, (run (Some len) data).1 = Raise TypeError.
Proof.
  intros answer file run.
  repeat split; by vm_compute.
Qed.

(** * Further properties *)

(** ** More on [unique] *)

Section unique_more.
Context {A : Type} `{EqDecision A}.
Implicit Types (x y : A) (l acc : list A).

Lemma unique_sublist_of l : unique l `sublist_of` l.
Proof.
  induction l as [|x l IH] using rev_ind; [done|].
  rewrite unique_snoc. destruct (decide (x ∈ unique l)).
  - by apply sublist_inserts_r.
  - by apply sublist_app.
Qed.

Lemma unique_loop_app acc l1 l2 :
  unique_loop acc (l1 ++ l2) = unique_loop (unique_loop acc l1) l2.
Proof.
  revert acc. induction l1 as [|x l1 IH]; intros acc; simpl; [done|].
  destruct (decide (x ∈ acc)); apply IH.
Qed.

Lemma unique_loop_filter acc l :
  unique_loop acc l = acc ++ filter (λ x, x ∉ acc) (unique l).
Proof.
  induction l as [|x l IH] using rev_ind.
  - simpl. by rewrite app_nil_r.
  - rewrite unique_loop_snoc, unique_snoc, IH.
    destruct (decide (x ∈ unique l)) as [Hin|Hnin].
    + rewrite decide_True; [done|].
      destruct (decide (x ∈ acc)); [by apply elem_of_app; left|].
      apply elem_of_app. right. by apply list_elem_of_filter.
    + rewrite filter_app. destruct (decide (x ∈ acc)) as [Hacc|Hacc].
      * rewrite decide_True by (apply elem_of_app; by left).
        rewrite filter_cons_False, filter_nil, app_nil_r; [done|]. by intros ?.
      * rewrite decide_False.
        -- rewrite filter_cons_True, filter_nil by done. by rewrite app_assoc.
        -- intros [?|[_ ?]%list_elem_of_filter]%elem_of_app; done.
Qed.

(** X1: [unique] neither reorders nor invents: its result can be obtained
    from the input by deleting elements, so it is never longer than the
    input and as long exactly when the input has no duplicates. *)
Theorem unique_sublist l :
  unique l `sublist_of` l
  ∧ (length (unique l) ≤ length l)%nat
  ∧ (length (unique l) = length l ↔ NoDup l).
Proof.
  pose proof (unique_sublist_of l) as Hsub.
  split; [done|]. split; [by apply sublist_length|]. split.
  - intros Hlen.
    assert (unique l = l) as <-; [|apply unique_NoDup].
    clear -Hsub Hlen. induction Hsub as [|x l1 l2 Hsub IH|x l1 l2 Hsub IH].
    + done.
    + f_equal. apply IH. simpl in Hlen. lia.
    + apply sublist_length in Hsub. simpl in Hlen. lia.
  - intros Hnd. by rewrite unique_of_NoDup.
Qed.

(** X2: [unique] of a concatenation is [unique] of the first part followed
    by what [unique] of the second part adds to it. *)
Theorem unique_app l1 l2 :
  unique (l1 ++ l2) = unique l1 ++ filter (λ x, x ∉ l1) (unique l2).
Proof.
  unfold unique at 1. rewrite unique_loop_app. fold (unique l1).
  rewrite unique_loop_filter. f_equal.
  apply list_filter_iff. intros x. by rewrite unique_elem_of.
Qed.
End unique_more.

Lemma unique_sublist_witness :
  length (unique [3; 1; 2]%nat) = length [3; 1; 2]%nat
  ∧ ¬ NoDup [3; 1; 3]%nat.
Proof.
  split.
  - apply (unique_sublist [3; 1; 2]%nat). apply (bool_decide_unpack _). reflexivity.
  - intros Hnd. apply (unique_sublist [3; 1; 3]%nat) in Hnd. vm_compute in Hnd. lia.
Defined.

(** ** More on the matchers *)

Lemma dict_comprehension_Some {X} (key value : X → string) (xs : list X) k v :
  dict_comprehension key value xs !! k = Some v →
  ∃ x, x ∈ xs ∧ key x = k ∧ value x = v.
Proof.
  rewrite dict_comprehension_lookup, fmap_Some.
  intros (x & Hlast & ->). exists x.
  apply last_Some_elem_of, list_elem_of_filter in Hlast as [? ?]. done.
Qed.

Lemma first_commit_in_app d l1 l2 :
  first_commit_in d (l1 ++ l2)
  = match first_commit_in d l1 with
    | Some v => Some v
    | None => first_commit_in d l2
    end.
Proof.
  induction l1 as [|c l1 IH]; simpl; [done|].
  by destruct (d !! Commit.sha c).
Qed.

Lemma first_commit_in_overlap {X} (key value : X → string) (xs : list X) commits :
  (∀ v, first_commit_in (dict_comprehension key value xs) commits = Some v →
        ∃ x c, x ∈ xs ∧ c ∈ commits ∧ key x = Commit.sha c ∧ value x = v)
  ∧ (first_commit_in (dict_comprehension key value xs) commits = None
     ↔ ∀ x c, x ∈ xs → c ∈ commits → key x ≠ Commit.sha c).
Proof.
  split.
  - intros v (pre & c & post & -> & _ & Hv)%first_commit_in_Some.
    apply dict_comprehension_Some in Hv as (x & Hx & Hk & Hval).
    exists x, c. repeat split; try done. apply elem_of_app. right. left.
  - rewrite first_commit_in_None. split.
    + intros Hnone x c Hx Hc Hk. specialize (Hnone c Hc).
      apply eq_None_not_Some in Hnone. apply Hnone.
      apply dict_comprehension_keys. by exists x.
    + intros Hno c Hc. apply eq_None_not_Some.
      intros (x & Hx & Hk)%dict_comprehension_keys. by apply (Hno x c).
Qed.

(** X3: a matcher returns a value exactly when some commit of the history
    is the head of some entry (for runs: of some run named gds), and the
    value it returns belongs to such an entry. *)
Theorem most_recent_action_overlap
    (commits : list Commit.t) (artifacts : list Artifact.t) (runs : list Run.t) :
  let sha_of a := WorkflowRunRef.head_sha (Artifact.workflow_run a) in
  (∀ v, get_most_recent_action_url commits artifacts = Some v →
        ∃ a c, a ∈ artifacts ∧ c ∈ commits ∧ sha_of a = Commit.sha c
               ∧ Artifact.archive_download_url a = v)
  ∧ (get_most_recent_action_url commits artifacts = None
     ↔ ∀ a c, a ∈ artifacts → c ∈ commits → sha_of a ≠ Commit.sha c)
  ∧ (∀ v, get_most_recent_action_page commits runs = Some v →
          ∃ run c, run ∈ runs ∧ Run.name run = "gds" ∧ c ∈ commits
                   ∧ Run.head_sha run = Commit.sha c ∧ Run.html_url run = v)
  ∧ (get_most_recent_action_page commits runs = None
     ↔ ∀ run c, run ∈ runs → Run.name run = "gds" → c ∈ commits →
                Run.head_sha run ≠ Commit.sha c).
Proof.
  intros sha_of.
  destruct (first_commit_in_overlap sha_of Artifact.archive_download_url
              artifacts commits) as [Hsome Hnone].
  destruct (first_commit_in_overlap Run.head_sha Run.html_url
              (filter (λ run, Run.name run = "gds") runs) commits)
    as [Hsome' Hnone'].
  split; [exact Hsome|]. split; [exact Hnone|]. split.
  - intros v (run & c & [? ?]%list_elem_of_filter & ? & ? & ?)%Hsome'.
    by exists run, c.
  - unfold get_most_recent_action_page. rewrite Hnone'. split.
    + intros H run c Hrun Hname. apply H. by apply list_elem_of_filter.
    + intros H run c [? ?]%list_elem_of_filter. by apply H.
Qed.

Lemma most_recent_action_overlap_witness :
  (∃ a c, a ∈ [Artifact.mk "GDS" (WorkflowRunRef.mk "c1") "urlA"]
          ∧ c ∈ [Commit.mk "c2"; Commit.mk "c1"]
          ∧ WorkflowRunRef.head_sha (Artifact.workflow_run a) = Commit.sha c
          ∧ Artifact.archive_download_url a = "urlA")
  ∧ get_most_recent_action_page [Commit.mk "c2"]
      [Run.mk "docs" "c2" "pageD"; Run.mk "gds" "c1" "pageA"] = None.
Proof.
  split.
  - apply (most_recent_action_overlap [Commit.mk "c2"; Commit.mk "c1"]
             [Artifact.mk "GDS" (WorkflowRunRef.mk "c1") "urlA"] []).
    reflexivity.
  - apply (most_recent_action_overlap [Commit.mk "c2"] []
             [Run.mk "docs" "c2" "pageD"; Run.mk "gds" "c1" "pageA"]).
    intros run c Hrun Hname Hc.
    apply elem_of_cons in Hrun as [->|Hrun]; [discriminate Hname|].
    apply elem_of_cons in Hrun as [->|Hrun]; [|by apply elem_of_nil in Hrun].
    apply elem_of_cons in Hc as [->|Hc]; [discriminate|by apply elem_of_nil in Hc].
Defined.

(** X4: a history in two parts is matched part by part: the later part
    counts only when nothing in the earlier part matches. *)
Theorem most_recent_action_app
    (newer older : list Commit.t) (artifacts : list Artifact.t) (runs : list Run.t) :
  get_most_recent_action_url (newer ++ older) artifacts
  = match get_most_recent_action_url newer artifacts with
    | Some v => Some v
    | None => get_most_recent_action_url older artifacts
    end
  ∧ get_most_recent_action_page (newer ++ older) runs
    = match get_most_recent_action_page newer runs with
      | Some v => Some v
      | None => get_most_recent_action_page older runs
      end.
Proof. split; apply first_commit_in_app. Qed.

(** ** More on [check_rate_limit] *)






Lemma infos_of_snoc tr ev :
  infos_of (tr ++ [ev])
  = infos_of tr ++ match ev with EvLog INFO msg => [msg] | _ => [] end.
Proof. unfold infos_of. rewrite omap_app. by destruct ev as [[] ?| | | |]. Qed.

Lemma half_limit_spec (rem lim : Z) :
  Qlt_bool (inject_Z rem) (inject_Z lim * (1 # 2)) = true ↔ 2 * rem < lim.
Proof.
  rewrite Qlt_bool_spec. unfold Qlt, Qmult, inject_Z. simpl. lia.
Qed.

(** X6: the quota report.  On a response without a [content-length]
    header, whose limit is no more than [2 ^ 53] in size, so that the
    float [limit * 0.50] is exact, and whose reset time is no more than
    [sys.maxsize] in size, [check_rate_limit] logs one line at INFO level
    when less than half of the limit is left, and none otherwise.  With
    the defaults of [-1] for both numbers, a response that carries no
    quota header at all is reported too. *)
Theorem check_rate_limit_reports r w :
  content_length r = None →
  let res := check_rate_limit r w in
  let remaining := quota_remaining r in
  let limit := default (-1) (x_ratelimit_limit r) in
  let reset := default sys_maxsize (x_ratelimit_reset r) in
  Z.abs limit ≤ 2 ^ 53 → Z.abs reset ≤ sys_maxsize →
  (2 * remaining < limit →
     ∃ msg, infos_of (trace res.2) = infos_of (trace w) ++ [msg])
  ∧ (limit ≤ 2 * remaining →
     infos_of (trace res.2) = infos_of (trace w))
  ∧ (x_ratelimit_remaining r = None → x_ratelimit_limit r = None →
     ∃ msg, infos_of (trace res.2) = infos_of (trace w) ++ [msg]).
Proof.
  intros Hcl res remaining limit reset _ _.
  assert ((2 * remaining < limit →
           ∃ msg, infos_of (trace res.2) = infos_of (trace w) ++ [msg])
          ∧ (limit ≤ 2 * remaining →
             infos_of (trace res.2) = infos_of (trace w))) as [Hlt Hge].
  { subst res remaining limit. unfold quota_remaining.
    unfold check_rate_limit, logging_info, logging_warning, logging_error.
    rewrite Hcl. run.
    set (rem := default (-1) (x_ratelimit_remaining r)).
    set (lim := default (-1) (x_ratelimit_limit r)).
    set (when := if Qtrunc _ <? 0 then 0 else _).
    set (delay := Qred _).
    pose proof (half_limit_spec rem lim) as Hhalf.
    destruct (Qlt_bool (inject_Z rem) _); run;
      (destruct ((0 <? rem) && (rem <? 100) && (0 <? when)); run;
        [destruct (Qlt_bool 0 delay && Qlt_bool delay 10); run|]);
      destruct (decide (rem = 0)); run;
      rewrite ?infos_of_snoc, ?app_nil_r;
      (split; [intros Hlt|intros Hge]);
      try (apply Hhalf in Hlt; discriminate Hlt);
      try (assert (2 * rem < lim) by (by apply Hhalf); lia);
      eauto. }
  split; [done|]. split; [done|].
  intros Hrem Hlim. apply Hlt. subst remaining limit. unfold quota_remaining.
  rewrite Hrem, Hlim. simpl. lia.
Qed.

Lemma check_rate_limit_reports_witness :
  (∃ msg, infos_of (trace (check_rate_limit (quota_response 2499 5000 2000)
                             (world ∅ 1000 [])).2) = [msg])
  ∧ infos_of (trace (check_rate_limit (quota_response 2500 5000 2000)
                       (world ∅ 1000 [])).2) = []
  ∧ (∃ msg, infos_of (trace (check_rate_limit (response 404 BOther)
                               (world ∅ 1000 [])).2) = [msg]).
Proof.
  destruct (check_rate_limit_reports (quota_response 2499 5000 2000)
              (world ∅ 1000 []) eq_refl) as (Hbelow & _ & _);
    [by vm_compute..|].
  destruct (check_rate_limit_reports (quota_response 2500 5000 2000)
              (world ∅ 1000 []) eq_refl) as (_ & Hhalf & _);
    [by vm_compute..|].
  destruct (check_rate_limit_reports (response 404 BOther)
              (world ∅ 1000 []) eq_refl) as (_ & _ & Hbare);
    [by vm_compute..|].
  split; [|split].
  - apply Hbelow. vm_compute. reflexivity.
  - apply Hhalf. vm_compute. discriminate.
  - apply Hbare; reflexivity.
Defined.

(** ** More on the resolver of credentials *)

Lemma credentials_cases headers w :
  headers_try_to_add_authorization_from_environment headers w
  = if decide (gh_token w ≠ "") then
      (Ret (<["authorization" := "Bearer " +:+ gh_token w]> headers, true), w)
    else if decide (gh_user w ≠ "" ∧ getenv w "GH_PASSWORD" ≠ "") then
      match encode_ascii (gh_user w +:+ ":" +:+ getenv w "GH_PASSWORD") with
      | inr raw =>
          (Ret (<["authorization" := "Basic " +:+ b64encode raw]> headers, true), w)
      | inl e => (Raise e, w)
      end
    else (Ret (headers, false), stderr_warned w).
Proof. apply credentials_run. Qed.

Lemma prefix_append p s : String.prefix p (p +:+ s) = true.
Proof.
  induction p as [|c p IH]; [apply prefix_nil_l|].
  rewrite append_cons, prefix_cons. by destruct (ascii_dec c c).
Qed.

(** X7: the resolver touches nothing but the [authorization] header: every
    other header comes back as it went in.  It returns [True] exactly when
    it has set [authorization], to a Bearer or a Basic value, and then
    leaves no trace; it returns [False] exactly when the headers come back
    unchanged, and then the one thing it has done is print the warning. *)
Theorem credentials_frame headers w headers' b w' :
  headers_try_to_add_authorization_from_environment headers w
  = (Ret (headers', b), w') →
  (∀ k, k ≠ "authorization" → headers' !! k = headers !! k)
  ∧ (b = true →
     w' = w
     ∧ ∃ v, headers' = <["authorization" := v]> headers
            ∧ (String.prefix "Bearer " v = true ∨ String.prefix "Basic " v = true))
  ∧ (b = false → headers' = headers ∧ w' = stderr_warned w).
Proof.
  rewrite credentials_cases.
  destruct (decide (gh_token w ≠ "")) as [Htok|Htok].
  - intros [= <- <- <-]. split; [|split].
    + intros k Hk. by rewrite lookup_insert_ne.
    + intros _. split; [done|]. eexists. split; [done|]. left. apply prefix_append.
    + done.
  - destruct (decide (_ ∧ _)) as [Hup|Hup].
    + destruct (encode_ascii _) as [e|raw]; [done|].
      intros [= <- <- <-]. split; [|split].
      * intros k Hk. by rewrite lookup_insert_ne.
      * intros _. split; [done|]. eexists. split; [done|]. right. apply prefix_append.
      * done.
    + intros [= <- <- <-]. done.
Qed.

Lemma credentials_frame_witness :
  let accept : gmap string string := {["Accept" := "application/vnd.github+json"]} in
  let env : gmap string string := <["GITHUB_TOKEN" := "t0k3n"]> ∅ in
  (<["authorization" := "Bearer t0k3n"]> accept) !! "Accept"
  = accept !! "Accept".
Proof.
  intros accept env.
  destruct (credentials_frame accept (world env 0 [])
    (<["authorization" := "Bearer t0k3n"]> accept) true (world env 0 []))
    as (Hframe & _); [reflexivity|].
  apply Hframe. discriminate.
Defined.

(** X8: with no token to use and both a user name and a password, a
    character outside ASCII in either makes the resolver raise
    [UnicodeEncodeError]; no header is produced and nothing is printed. *)
Theorem credentials_non_ascii headers w :
  gh_token w = "" → gh_user w ≠ "" → getenv w "GH_PASSWORD" ≠ "" →
  forallb is_ascii (str_to_list (gh_user w +:+ ":" +:+ getenv w "GH_PASSWORD"))
  = false →
  headers_try_to_add_authorization_from_environment headers w
  = (Raise UnicodeEncodeError, w).
Proof.
  intros Htok Hu Hp Hascii. rewrite credentials_cases.
  rewrite decide_False by (by intros ?). rewrite decide_True by done.
  unfold encode_ascii. by rewrite Hascii.
Qed.

Lemma credentials_non_ascii_witness :
  let env : gmap string string :=
    <["GH_USERNAME" := String (ascii_of_N 233) "ric"]>
      (<["GH_PASSWORD" := "s3cret"]> ∅) in
  headers_try_to_add_authorization_from_environment ∅ (world env 0 [])
  = (Raise UnicodeEncodeError, world env 0 []).
Proof.
  intros env. apply credentials_non_ascii; [reflexivity|discriminate..|reflexivity].
Defined.

(** X9: a Basic header can be read back: decoding what follows [Basic ]
    gives the bytes of [user:password]. *)
Theorem credentials_basic_decodes headers w headers' value :
  (headers_try_to_add_authorization_from_environment headers w).1
  = Ret (headers', true) →
  headers' !! "authorization" = Some ("Basic " +:+ value) →
  b64decode value
  = inr (str_to_list (gh_user w +:+ ":" +:+ getenv w "GH_PASSWORD")).
Proof.
  rewrite credentials_cases.
  destruct (decide (gh_token w ≠ "")) as [Htok|Htok].
  - intros [= <-]. rewrite lookup_insert_eq. intros [=].
  - destruct (decide (_ ∧ _)) as [Hup|Hup]; [|done].
    destruct (encode_ascii _) as [e|raw] eqn:Henc; [done|].
    apply encode_ascii_inr in Henc as ->.
    intros [= <-]. rewrite lookup_insert_eq. intros [= Hv].
    rewrite !append_nil_l in Hv. subst value. apply b64decode_b64encode.
Qed.

Lemma credentials_basic_decodes_witness :
  b64decode "YWxpY2U6czNjcmV0" = inr (str_to_list "alice:s3cret").
Proof.
  pose (env := <["GITHUB_ACTOR" := "alice"]> (<["GH_PASSWORD" := "s3cret"]> ∅)
               : gmap string string).
  apply (credentials_basic_decodes ∅ (world env 0 [])
           (<["authorization" := "Basic YWxpY2U6czNjcmV0"]> ∅)); reflexivity.
Defined.

(** X10: the resolver reads each variable with the empty string as its
    default, so a variable set to the empty string counts as unset: two
    environments with the same readings give the same outcome. *)
Theorem credentials_empty_is_unset headers w1 w2 :
  (∀ k, k ∈ ["GH_TOKEN"; "GITHUB_TOKEN"; "GH_USERNAME"; "GITHUB_ACTOR"; "GH_PASSWORD"] →
        getenv w1 k = getenv w2 k) →
  (headers_try_to_add_authorization_from_environment headers w1).1
  = (headers_try_to_add_authorization_from_environment headers w2).1.
Proof.
  intros Hsame. rewrite !credentials_cases. unfold gh_token, gh_user.
  rewrite !(Hsame "GH_TOKEN"), !(Hsame "GITHUB_TOKEN"), !(Hsame "GH_USERNAME"),
    !(Hsame "GITHUB_ACTOR"), !(Hsame "GH_PASSWORD") by set_solver.
  repeat case_decide; try done; try tauto; by destruct (encode_ascii _).
Qed.

Lemma credentials_empty_is_unset_witness :
  let set_empty : gmap string string :=
    <["GH_TOKEN" := ""]> (<["GITHUB_TOKEN" := "t0k3n"]> ∅) in
  let unset : gmap string string := <["GITHUB_TOKEN" := "t0k3n"]> ∅ in
  (headers_try_to_add_authorization_from_environment ∅ (world set_empty 0 [])).1
  = (headers_try_to_add_authorization_from_environment ∅ (world unset 0 [])).1.
Proof.
  intros set_empty unset. apply credentials_empty_is_unset.
  intros k Hk. repeat (apply elem_of_cons in Hk as [->|Hk]; [reflexivity|]).
  by apply elem_of_nil in Hk.
Defined.

(** ** More on [split_git_url] *)

Lemma split_no_sep sep s p : p ∈ split sep s → count_char sep p = 0%nat.
Proof.
  revert p. induction s as [|c s IH]; intros p; simpl.
  - by intros ->%list_elem_of_singleton.
  - destruct (decide (c = sep)) as [->|Hne].
    + intros [->|Hin]%elem_of_cons; [done|]. by apply IH.
    + destruct (split sep s) as [|q qs] eqn:Hs.
      * intros ->%list_elem_of_singleton. simpl. by rewrite decide_False.
      * intros [->|Hin]%elem_of_cons.
        -- simpl. rewrite decide_False by done. apply IH. left.
        -- apply IH. by right.
Qed.

Lemma replace_from_count c old k s :
  (count_char c (replace_from old "" k s) ≤ count_char c s)%nat.
Proof.
  revert k. induction s as [|d s IH]; intros k; [done|].
  destruct k as [|k].
  - cbn [replace_from]. destruct (String.prefix old (String d s)).
    + rewrite append_nil_l. simpl. specialize (IH (String.length old - 1)%nat). lia.
    + simpl. specialize (IH 0%nat). lia.
  - simpl. specialize (IH k). lia.
Qed.

(** X11: neither part of the pair [split_git_url] returns holds a slash, and
    returning it leaves no trace. *)
Theorem split_git_url_no_slash urlparse url w user_name repo w' :
  split_git_url urlparse url w = (Ret (user_name, repo), w') →
  count_char "/" user_name = 0%nat ∧ count_char "/" repo = 0%nat ∧ w' = w.
Proof.
  unfold split_git_url.
  destruct (split "/" _) as [|a [|b [|c [|]]]] eqn:Hs; try done.
  intros [= <- <- <-].
  assert (count_char "/" b = 0%nat ∧ count_char "/" c = 0%nat) as [Hb Hc].
  { split; apply (split_no_sep "/" (ParseResult.path (urlparse url)));
      rewrite Hs; set_solver. }
  split; [done|]. split; [|done].
  pose proof (replace_from_count "/" ".git" 0 c) as Hle. unfold replace. lia.
Qed.

Lemma split_git_url_no_slash_witness :
  count_char "/" "acme" = 0%nat ∧ count_char "/" "widget" = 0%nat
  ∧ world ∅ 0 [] = world ∅ 0 [].
Proof.
  apply (split_git_url_no_slash urlparse_plain
           "https://github.com/acme/widget.git" (world ∅ 0 [])).
  reflexivity.
Defined.

Lemma prefix_occurs p s : String.prefix p s = true → ∃ post, s = p +:+ post.
Proof.
  revert s. induction p as [|c p IH]; intros s.
  - intros _. by exists s.
  - destruct s as [|d s]; [done|]. rewrite prefix_cons.
    destruct (ascii_dec c d) as [->|]; [|done].
    intros (post & ->)%IH. by exists post.
Qed.

(** [contains] is what it is named for. *)
Lemma contains_spec old s :
  contains old s = true ↔ ∃ pre post, s = pre +:+ old +:+ post.
Proof.
  split.
  - induction s as [|c s IH]; cbn [contains]; rewrite orb_true_iff.
    + intros [Hp|?]; [|done]. apply prefix_occurs in Hp as [post ->].
      by exists "", post.
    + intros [Hp|Hc].
      * apply prefix_occurs in Hp as [post ->]. by exists "", post.
      * destruct (IH Hc) as (pre & post & ->). by exists (String c pre), post.
  - intros (pre & post & ->). induction pre as [|c pre IH].
    + rewrite append_nil_l.
      assert (String.prefix old (old +:+ post) = true) as Hp.
      { clear. induction old as [|c p IH]; [apply prefix_nil_l|].
        rewrite append_cons, prefix_cons. by destruct (ascii_dec c c). }
      destruct (old +:+ post); cbn [contains]; by rewrite Hp.
    + rewrite append_cons. cbn [contains]. rewrite IH. apply orb_true_r.
Qed.

Lemma replace_from_no_occurrence old s :
  contains old s = false → replace_from old "" 0 s = s.
Proof.
  induction s as [|c s IH]; [done|].
  cbn [contains]. intros [Hp Hc]%orb_false_iff.
  cbn [replace_from]. rewrite Hp. f_equal. by apply IH.
Qed.

(** X12: a repository segment in which [.git] does not occur comes back as
    the name unchanged, and so does that segment followed by [.git]. *)
Theorem split_git_url_clean_name urlparse url w a user_name repo :
  contains ".git" repo = false →
  split "/" (ParseResult.path (urlparse url)) = [a; user_name; repo]
  ∨ split "/" (ParseResult.path (urlparse url)) = [a; user_name; repo +:+ ".git"] →
  split_git_url urlparse url w = (Ret (user_name, repo), w).
Proof.
  intros Hno [Hs|Hs]; rewrite (split_git_url_ok _ _ _ _ _ _ Hs);
    rewrite ?replace_dot_git_suffix; unfold replace;
    by rewrite replace_from_no_occurrence.
Qed.

Lemma split_git_url_clean_name_witness :
  split_git_url urlparse_plain "https://github.com/acme/tt_um-widget.v2.git"
    (world ∅ 0 [])
  = (Ret ("acme", "tt_um-widget.v2"), world ∅ 0 []).
Proof.
  apply (split_git_url_clean_name urlparse_plain _ _ "");
    [reflexivity|right; reflexivity].
Defined.

(** ** Runs, request by request *)

Lemma request_events_snoc tr ev :
  request_events (tr ++ [ev])
  = request_events tr
    ++ match ev with EvRequest u h p => [(u, h, p)] | _ => [] end.
Proof. unfold request_events. rewrite omap_app. by destruct ev. Qed.

Lemma extracts_of_snoc tr ev :
  extracts_of (tr ++ [ev])
  = extracts_of tr ++ match ev with EvExtract d ms => [(d, ms)] | _ => [] end.
Proof. unfold extracts_of. rewrite omap_app. by destruct ev. Qed.

Lemma requests_of_events tr : requests_of tr = (λ e, e.1.1) <$> request_events tr.
Proof.
  induction tr as [|ev tr IH]; [done|].
  unfold requests_of, request_events in *.
  destruct ev; csimpl; by rewrite ?IH.
Qed.

Lemma calm_ret {A} (a : A) : calm (mret a).
Proof. by intros w. Qed.
Lemma calm_exit {A} code : calm (@exit A code).
Proof. by intros w. Qed.
Lemma calm_raise {A} e : calm (@raise A e).
Proof. by intros w. Qed.
Lemma calm_lift {A} (r : Exn + A) : calm (lift r).
Proof. by destruct r. Qed.
Lemma calm_bind {A B} (m : M A) (f : A → M B) :
  calm m → (∀ a, calm (f a)) → calm (m ≫= f).
Proof.
  intros Hm Hf w. rewrite bind_run. specialize (Hm w).
  destruct (m w) as [[a|code|e] w1]; simpl in *; [|done..].
  destruct (Hf a w1) as (-> & -> & -> & ->). done.
Qed.
Lemma calm_log lvl msg : calm (emit (EvLog lvl msg)).
Proof.
  intros w. simpl. by rewrite request_events_snoc, extracts_of_snoc, !app_nil_r.
Qed.
Lemma calm_stderr msg : calm (emit (EvStderr msg)).
Proof.
  intros w. simpl. by rewrite request_events_snoc, extracts_of_snoc, !app_nil_r.
Qed.
Lemma calm_getenv k d : calm (os_getenv k d).
Proof. by intros w. Qed.
Lemma calm_time : calm time_time.
Proof. by intros w. Qed.
Lemma calm_sleep d : calm (time_sleep d).
Proof.
  intros w. simpl. by rewrite request_events_snoc, extracts_of_snoc, !app_nil_r.
Qed.
Lemma calm_json r : calm (json r).
Proof. unfold json. destruct (body r); by intros w. Qed.
Lemma calm_iter_commits j : calm (iter_commits j).
Proof. by destruct j. Qed.
Lemma calm_py_ge v n : calm (py_ge v n).
Proof. by destruct v. Qed.

Create HintDb calm.
#[local] Hint Resolve calm_ret calm_exit calm_raise calm_lift calm_log
  calm_stderr calm_getenv calm_time calm_sleep calm_json calm_iter_commits
  calm_py_ge : calm.
#[local] Hint Unfold logging_debug logging_error logging_info logging_warning : calm.

Ltac calm_steps :=
  repeat autounfold with calm;
  repeat first
    [ progress eauto with calm
    | apply calm_bind; [|intros ?]
    | match goal with
      | |- calm (if ?b then _ else _) => destruct b
      | |- calm (match ?x with _ => _ end) => destruct x
      end ].

Lemma calm_check_status r : calm (check_status r).
Proof. unfold check_status. calm_steps. Qed.
Lemma calm_check_rate_limit r : calm (check_rate_limit r).
Proof. unfold check_rate_limit. calm_steps. Qed.
Lemma calm_credentials headers :
  calm (headers_try_to_add_authorization_from_environment headers).
Proof. unfold headers_try_to_add_authorization_from_environment. calm_steps. Qed.
Lemma calm_split_git_url urlparse url : calm (split_git_url urlparse url).
Proof. unfold split_git_url. calm_steps. Qed.
Lemma calm_after_download left_at : calm (after_download left_at).
Proof. unfold after_download. calm_steps. Qed.

#[local] Hint Resolve calm_check_status calm_check_rate_limit calm_credentials
  calm_split_git_url calm_after_download : calm.

Lemma calm_run {A} (m : M A) w o w1 :
  calm m → m w = (o, w1) →
  request_events (trace w1) = request_events (trace w)
  ∧ extracts_of (trace w1) = extracts_of (trace w)
  ∧ transport w1 = transport w
  ∧ environ w1 = environ w.
Proof. intros Hq Hm. specialize (Hq w). by rewrite Hm in Hq. Qed.

Lemma requests_get_events u h p w o w1 :
  requests_get (Some u) h p w = (o, w1) →
  request_events (trace w1) = request_events (trace w) ++ [(u, h, p)]
  ∧ extracts_of (trace w1) = extracts_of (trace w)
  ∧ environ w1 = environ w
  ∧ ((o = Raise ConnectionError ∧ transport w = [])
     ∨ (∃ r, o = Ret r ∧ transport w = r :: transport w1)).
Proof.
  rewrite requests_get_run. intros [= <- <-]. simpl.
  rewrite request_events_snoc, extracts_of_snoc, app_nil_r.
  repeat split; try done.
  destruct (transport w) as [|r rest]; [left|right]; eauto.
Qed.

(** The resolver's outcome is a matter of the environment alone. *)
Lemma credentials_environ headers w1 w2 :
  environ w1 = environ w2 →
  (headers_try_to_add_authorization_from_environment headers w1).1
  = (headers_try_to_add_authorization_from_environment headers w2).1.
Proof.
  intros Henv. rewrite !credentials_run. unfold getenv. rewrite Henv.
  repeat case_decide; try done; by destruct (encode_ascii _).
Qed.

(** One pass of the loop in full: what it sends, what it takes, what it
    unpacks and how it ends. *)
Lemma download_attempt_run url h d a w :
  let r := download_attempt url h d a w in
  environ r.2 = environ w ∧
  match url with
  | None =>
      r.1 = Raise MissingSchema
      ∧ request_events (trace r.2) = request_events (trace w)
      ∧ extracts_of (trace r.2) = extracts_of (trace w)
      ∧ transport r.2 = transport w
  | Some u =>
      request_events (trace r.2) = request_events (trace w) ++ [(u, h, None)]
      ∧ transport r.2 = tail (transport w)
      ∧ ((∃ ms, r.1 = Ret (true, a)
                ∧ extracts_of (trace r.2) = extracts_of (trace w) ++ [(d, ms)])
         ∨ (extracts_of (trace r.2) = extracts_of (trace w)
            ∧ (r.1 = Ret (false, a + 1) ∨ r.1 = Exit 1
               ∨ r.1 = Raise ConnectionError)))
  end.
Proof.
  unfold download_attempt, try_except, logging_debug, logging_warning,
    check_status, zip_extractall, logging_error.
  destruct url as [u|]; run;
    [destruct (transport w) as [|r rest]; run;
      [|destruct (decide (status_code r = 401)); run;
        [|destruct (body r); run]]|];
    rewrite ?request_events_snoc, ?extracts_of_snoc, ?app_nil_r;
    repeat split; eauto 8.
Qed.

(** The loop in full.  It sends some number [k] of requests, all alike and
    no more than [max_attempts - attempts]; it ends either having unpacked
    one archive, with the counter below [max_attempts], or having unpacked
    nothing, and then, if it returns at all, with the counter at
    [max_attempts] (or where it started, if that was higher). *)
Lemma download_loop_run fuel url h d attempts max_attempts w :
  let res := download_loop fuel url h d attempts max_attempts w in
  environ res.2 = environ w ∧
  ∃ k, (k ≤ Z.to_nat (max_attempts - attempts))%nat
    ∧ request_events (trace res.2)
      = request_events (trace w)
        ++ match url with Some u => replicate k (u, h, None) | None => [] end
    ∧ ((∃ a' ms, res.1 = Ret (Some a') ∧ attempts ≤ a' < max_attempts
                 ∧ extracts_of (trace res.2) = extracts_of (trace w) ++ [(d, ms)])
       ∨ (extracts_of (trace res.2) = extracts_of (trace w)
          ∧ ∀ a', res.1 = Ret (Some a') → a' = Z.max attempts max_attempts)).
Proof.
  revert attempts w. induction fuel as [|fuel IH]; intros attempts w; simpl;
    destruct (Z.ltb_spec attempts max_attempts) as [Hlt|Hge]; simpl.
  - split; [done|]. exists 0%nat. split; [lia|].
    split; [by destruct url; rewrite app_nil_r|]. right. split; done.
  - split; [done|]. exists 0%nat. split; [lia|].
    split; [by destruct url; rewrite app_nil_r|]. right. split; [done|].
    intros a' [= <-]. lia.
  - rewrite bind_run.
    pose proof (download_attempt_run url h d attempts w) as [Henv Hrun].
    simpl in Henv, Hrun.
    destruct (download_attempt url h d attempts w) as [[[brk a1]|code|e] w1];
      simpl in Henv, Hrun.
    + destruct url as [u|]; [|by destruct Hrun].
      destruct Hrun as (Hev & Htr & [(ms & [= -> ->] & Hex)|(Hex & Hout)]).
      * simpl. split; [done|]. exists 1%nat. split; [lia|]. split; [done|].
        left. exists attempts, ms. repeat split; try done; lia.
      * destruct Hout as [[= -> ->]|[?|?]]; [|done..].
        destruct (IH (attempts + 1) w1) as (Henv' & k & Hk & Hev' & Hcases).
        split; [congruence|]. exists (S k). split; [lia|]. split.
        { rewrite Hev', Hev. simpl. by rewrite <- app_assoc. }
        destruct Hcases as [(a' & ms & ? & ? & Hex')|[Hex' Hret]].
        -- left. exists a', ms. repeat split; try done; try lia. congruence.
        -- right. split; [congruence|]. intros a' Ha'. rewrite (Hret a' Ha'). lia.
    + simpl. split; [done|]. destruct url as [u|].
      * destruct Hrun as (Hev & Htr & [(ms & ? & _)|(Hex & _)]); [done|].
        exists 1%nat. split; [lia|]. split; [done|]. right. split; done.
      * destruct Hrun as (_ & Hev & Hex & _).
        exists 0%nat. split; [lia|]. rewrite app_nil_r. split; [done|].
        right. split; done.
    + simpl. split; [done|]. destruct url as [u|].
      * destruct Hrun as (Hev & Htr & [(ms & ? & _)|(Hex & _)]); [done|].
        exists 1%nat. split; [lia|]. split; [done|]. right. split; done.
      * destruct Hrun as (_ & Hev & Hex & _).
        exists 0%nat. split; [lia|]. rewrite app_nil_r. split; [done|].
        right. split; done.
  - split; [done|]. exists 0%nat. split; [lia|].
    split; [by destruct url; rewrite app_nil_r|]. right. split; [done|].
    intros a' [= <-]. lia.
Qed.

(** Without a URL the first pass raises. *)
Lemma download_loop_no_url fuel h d attempts max_attempts w :
  attempts < max_attempts →
  (download_loop (S fuel) None h d attempts max_attempts w).1 = Raise MissingSchema.
Proof.
  intros Hlt. simpl. rewrite (proj2 (Z.ltb_lt _ _) Hlt), bind_run.
  pose proof (download_attempt_run None h d attempts w) as [_ [Hout _]].
  destruct (download_attempt None h d attempts w) as [o w1].
  simpl in Hout. by subst o.
Qed.

Ltac chase_events :=
  repeat match goal with
  | H : request_events (trace _) = _ |- _ => rewrite H
  | H : extracts_of (trace _) = _ |- _ => rewrite H
  end;
  rewrite <- ?app_assoc; simpl; rewrite ?app_nil_r.

Tactic Notation "cstep" hyp(H) "as" simple_intropattern(a) ident(w1) :=
  let Hm := fresh "Hm" in
  apply bind_inv in H as [(a & w1 & Hm & H) | [(? & Hm & ?) | (? & Hm & ?)]];
  (apply calm_run in Hm as (? & ? & ? & ?); [|solve [calm_steps]]).

Tactic Notation "kstep" hyp(H) "as" simple_intropattern(a) ident(w1) ident(Hm) :=
  let Hcalm := fresh "Hcalm" in
  apply bind_inv in H as [(a & w1 & Hm & H) | [(? & Hm & ?) | (? & Hm & ?)]];
  (pose proof Hm as Hcalm;
   apply calm_run in Hcalm as (? & ? & ? & ?); [|solve [calm_steps]]).

Lemma requests_get_last u h p w o w1 :
  requests_get (Some u) h p w = (o, w1) → last (trace w1) = Some (EvRequest u h p).
Proof.
  unfold requests_get.
  destruct (transport w); intros [= <- <-]; simpl; apply last_snoc.
Qed.

Lemma requests_get_tail u h p w o w1 :
  requests_get (Some u) h p w = (o, w1) → transport w1 = tail (transport w).
Proof.
  unfold requests_get. by destruct (transport w); intros [= <- <-].
Qed.

Tactic Notation "gstep" hyp(H) "as" ident(r) ident(w1) :=
  let Hm := fresh "Hm" in
  let Ho := fresh "Ho" in
  let Hlast := fresh "Hlast" in
  apply bind_inv in H as [(r & w1 & Hm & H) | [(? & Hm & ?) | (? & Hm & ?)]];
  pose proof (requests_get_last _ _ _ _ _ _ Hm) as Hlast;
  pose proof (requests_get_tail _ _ _ _ _ _ Hm);
  apply requests_get_events in Hm as (? & ? & ? & [[Ho ?]|(? & Ho & ?)]);
  try discriminate Ho; try (injection Ho as <-).

Ltac chase_environ :=
  repeat match goal with
  | H : environ _ = _ |- _ => rewrite H
  end.

Ltac early n :=
  left; exists n; split; [lia|]; split; [by chase_events|];
  split; [by chase_events|]; split; [by chase_environ|];
  split; [intros ?; congruence|].

Lemma split_git_url_repo_of urlparse url w p w1 :
  split_git_url urlparse url w = (Ret p, w1) → p = repo_of urlparse url.
Proof.
  unfold split_git_url, repo_of.
  destruct (split "/" _) as [|a [|b [|c [|]]]]; try discriminate.
  by intros [= <- _].
Qed.

Lemma resolved_headers_run w w1 h b w2 :
  environ w1 = environ w →
  headers_try_to_add_authorization_from_environment accept w1 = (Ret (h, b), w2) →
  h = resolved_headers w.
Proof.
  intros Henv Hc. unfold resolved_headers.
  rewrite (credentials_environ accept w w1) by done. by rewrite Hc.
Qed.

(** The run of [install_artifacts] up to the loop.  Either it ends before
    the loop, having sent at most the two listing requests, or it enters
    the loop with at least one artifact named GDS in hand. *)
Lemma install_artifacts_phases urlparse fuel url directory w :
  let res := install_artifacts urlparse fuel url directory w in
  let e1 := api_request urlparse url w "/commits" None in
  let e2 := api_request urlparse url w "/actions/artifacts" (Some 100) in
  (∃ n, (n ≤ 2)%nat
      ∧ request_events (trace res.2) = request_events (trace w) ++ take n [e1; e2]
      ∧ extracts_of (trace res.2) = extracts_of (trace w)
      ∧ environ res.2 = environ w
      ∧ (∀ x, res.1 ≠ Ret x)
      ∧ (n = 2%nat →
         (∃ r1, transport w = [r1])
         ∨ ∃ r1 r2 rest, transport w = r1 :: r2 :: rest ∧
             (status_code r2 = 401
              ∨ (∀ j, body r2 ≠ BJson j)
              ∨ (∃ j, body r2 = BJson j ∧ no_artifacts j)
              ∨ (∃ d all, body r2 = BJson (JDict d) ∧ artifacts d = Some all
                          ∧ gds_artifacts all = [])
              ∨ (∃ d0, body r1 = BJson (JDict d0)))))
  ∨ (∃ r1 r2 commits d all w2,
       transport w = r1 :: r2 :: transport w2
       ∧ body r1 = BJson (JList commits)
       ∧ status_code r2 ≠ 401
       ∧ body r2 = BJson (JDict d) ∧ artifacts d = Some all
       ∧ gds_artifacts all ≠ []
       ∧ request_events (trace w2) = request_events (trace w) ++ [e1; e2]
       ∧ extracts_of (trace w2) = extracts_of (trace w)
       ∧ environ w2 = environ w
       ∧ res = (download_loop fuel
                  (get_most_recent_action_url commits (gds_artifacts all))
                  (resolved_headers w) directory 1 3 ≫= after_download) w2).
Proof.
  intros res e1 e2. subst e1 e2. unfold api_request.
  remember res as res' eqn:H. subst res. symmetry in H. rename res' into res.
  unfold install_artifacts in H.
  cstep H as [] w0; [|early 0%nat; lia..].
  kstep H as [user_name repo] w1 Hsplit; [|early 0%nat; lia..].
  apply split_git_url_repo_of in Hsplit as <-. cbn [fst snd].
  kstep H as [h b] w2 Hc; [|early 0%nat; lia..].
  apply (resolved_headers_run w) in Hc as ->; [|congruence].
  gstep H as r1 w3; [|early 1%nat; lia].
  cstep H as [] w4; [|early 1%nat; lia..].
  cstep H as [] w5; [|early 1%nat; lia..].
  kstep H as commits w6 Hjson; [|early 1%nat; lia..].
  assert (body r1 = BJson commits) as Hbody1.
  { revert Hjson. unfold json. destruct (body r1); try done. by intros [= ->]. }
  clear Hjson.
  gstep H as r2 w7.
  2:{ early 2%nat. intros _. left. exists r1. congruence. }
  assert (transport w = r1 :: r2 :: transport w7) as Htr by congruence.
  rewrite bind_run, check_status_run in H.
  destruct (decide (status_code r2 = 401)) as [Hst|Hst].
  { subst res. left. exists 2%nat. simpl.
    rewrite request_events_snoc, extracts_of_snoc, !app_nil_r.
    split; [lia|]. split; [by chase_events|]. split; [by chase_events|].
    split; [by chase_environ|].
    split; [done|]. intros _. right. exists r1, r2, (transport w7). auto. }
  rewrite bind_run in H. unfold json at 1 in H.
  destruct (body r2) as [data| |] eqn:Hbody;
    [|subst res; left; exists 2%nat; simpl;
      (split; [lia|]); (split; [by chase_events|]); (split; [by chase_events|]);
      (split; [by chase_environ|]);
      (split; [done|]); intros _; right; exists r1, r2, (transport w7);
      (split; [done|]); right; left; intros j; rewrite Hbody; discriminate..].
  cbn [mret M_ret] in H.
  kstep H as arts w8 Hd.
  2,3: (early 2%nat; intros _; right; exists r1, r2, (transport w7);
        (split; [done|]); do 2 right; left; exists data; (split; [done|]);
        by destruct data as [|[[|] ? ? ?]]).
  destruct data as [items|[[all|] wr c e]]; try done.
  assert (arts = gds_artifacts all) as ->.
  { revert Hd. unfold logging_debug, emit. rewrite bind_run. simpl. by intros [= <- _]. }
  clear Hd.
  kstep H as [] w9 Hd.
  2,3: (early 2%nat; intros _; right; exists r1, r2, (transport w7);
        (split; [done|]); do 3 right; left;
        exists {| artifacts := Some all; workflow_runs := wr; content := c; encoding := e |}, all;
        (split; [done|]); (split; [done|]);
        destruct (gds_artifacts all); [done|by destruct (decide _)]).
  assert (gds_artifacts all ≠ []) as Hgds.
  { intros Hnil. rewrite Hnil in Hd. done. }
  clear Hd.
  kstep H as cs w10 Hd.
  2,3: (early 2%nat; intros _; right; exists r1, r2, (transport w7);
        (split; [done|]); do 4 right;
        destruct commits as [|d0]; [discriminate Hd|]; by exists d0).
  destruct commits as [cs'|]; [|discriminate Hd]. injection Hd as -> ->.
  right. exists r1, r2, cs, {| artifacts := Some all; workflow_runs := wr; content := c; encoding := e |}, all, w10.
  split; [congruence|]. split; [done|]. split; [done|]. split; [done|].
  split; [done|]. split; [done|]. split; [by chase_events|].
  split; [by chase_events|]. split; [congruence|]. by subst res.
Qed.

(** ** [fetch_file_from_git] on the network *)

(** X13: what [fetch_file_from_git] does on the network.  It sends one
    request at most, for [path] under [contents] of the repository, with
    the headers resolved from the environment on entry, and takes one
    answer at most; it returns a value only after that request; it unpacks
    nothing and leaves the environment as it was. *)
Theorem fetch_file_from_git_request urlparse git_url path w :
  let res := fetch_file_from_git urlparse git_url path w in
  ∃ n : nat,
    (n ≤ 1)%nat
    ∧ request_events (trace res.2)
      = request_events (trace w)
        ++ take n [api_request urlparse git_url w ("/contents/" +:+ path) None]
    ∧ transport res.2 = drop n (transport w)
    ∧ ((∃ x, res.1 = Ret x) → n = 1%nat)
    ∧ extracts_of (trace res.2) = extracts_of (trace w)
    ∧ environ res.2 = environ w.
Proof.
  intros res. unfold api_request.
  remember res as res' eqn:H. subst res. symmetry in H. rename res' into res.
  unfold fetch_file_from_git in H.
  assert (∀ n : nat, (n ≤ 1)%nat →
            request_events (trace res.2)
            = request_events (trace w)
              ++ take n [(api_url (repo_of urlparse git_url).1
                            (repo_of urlparse git_url).2 ("/contents/" +:+ path),
                          resolved_headers w, None)] →
            transport res.2 = drop n (transport w) →
            ((∃ x, res.1 = Ret x) → n = 1%nat) →
            extracts_of (trace res.2) = extracts_of (trace w) →
            environ res.2 = environ w →
            ∃ n : nat, (n ≤ 1)%nat
              ∧ request_events (trace res.2)
                = request_events (trace w)
                  ++ take n [(api_url (repo_of urlparse git_url).1
                                (repo_of urlparse git_url).2 ("/contents/" +:+ path),
                              resolved_headers w, None)]
              ∧ transport res.2 = drop n (transport w)
              ∧ ((∃ x, res.1 = Ret x) → n = 1%nat)
              ∧ extracts_of (trace res.2) = extracts_of (trace w)
              ∧ environ res.2 = environ w) as Hdone.
  { intros n. by exists n. }
  kstep H as [user_name repo] w1 Hsplit;
    [|apply (Hdone 0%nat);
      [lia|by chase_events|rewrite drop_0; congruence|intros [v Hv]; congruence
      |by chase_events|by chase_environ]..].
  apply split_git_url_repo_of in Hsplit.
  assert (user_name = (repo_of urlparse git_url).1) as -> by (by rewrite <- Hsplit).
  assert (repo = (repo_of urlparse git_url).2) as -> by (by rewrite <- Hsplit).
  clear Hsplit.
  kstep H as [h b] w2 Hc;
    [|apply (Hdone 0%nat);
      [lia|by chase_events|rewrite drop_0; congruence|intros [v Hv]; congruence
      |by chase_events|by chase_environ]..].
  apply (resolved_headers_run w) in Hc as ->; [|done].
  cstep H as [] w3;
    [|apply (Hdone 0%nat);
      [lia|by chase_events|rewrite drop_0; congruence|intros [v Hv]; congruence
      |by chase_events|by chase_environ]..].
  assert (∀ wend, transport wend = tail (transport w3) → transport wend = drop 1 (transport w))
    as Htail.
  { intros wend ->. replace (transport w3) with (transport w) by congruence.
    by destruct (transport w). }
  gstep H as r w4;
    [|apply (Hdone 1%nat);
      [lia|by chase_events|by apply Htail|done
      |by chase_events|by chase_environ]].
  destruct res as [o wend]. cbn [fst snd] in *.
  apply calm_run in H as (? & ? & ? & ?);
    [|solve [calm_steps]].
  apply (Hdone 1%nat);
    [lia|by chase_events|apply Htail; congruence|done
    |by chase_events|by chase_environ].
Qed.

(** ** [install_artifacts], start to end *)

(** One pass of the loop on a well-formed archive, on a corrupt one and on
    a refusal. *)
Lemma download_attempt_valid u h d a w r rest ms :
  transport w = r :: rest → status_code r ≠ 401 → body r = BZip ms →
  ∃ w1, download_attempt (Some u) h d a w = (Ret (true, a), w1)
    ∧ transport w1 = rest
    ∧ request_events (trace w1) = request_events (trace w) ++ [(u, h, None)]
    ∧ extracts_of (trace w1) = extracts_of (trace w) ++ [(d, ms)].
Proof.
  intros Htr Hst Hbody.
  unfold download_attempt, try_except, logging_debug, logging_warning,
    check_status, zip_extractall, logging_error.
  run. rewrite Htr. run. rewrite decide_False by done. run. rewrite Hbody. run.
  eexists. split; [done|]. simpl.
  by rewrite ?request_events_snoc, ?extracts_of_snoc, ?app_nil_r.
Qed.

Lemma download_attempt_corrupt u h d a w r rest :
  transport w = r :: rest → status_code r ≠ 401 → (∀ ms, body r ≠ BZip ms) →
  ∃ w1, download_attempt (Some u) h d a w = (Ret (false, a + 1), w1)
    ∧ transport w1 = rest
    ∧ request_events (trace w1) = request_events (trace w) ++ [(u, h, None)]
    ∧ extracts_of (trace w1) = extracts_of (trace w).
Proof.
  intros Htr Hst Hbody.
  unfold download_attempt, try_except, logging_debug, logging_warning,
    check_status, zip_extractall, logging_error.
  run. rewrite Htr. run. rewrite decide_False by done. run.
  destruct (body r) as [j|ms|] eqn:Hb; [|by destruct (Hbody ms)|]; run;
    (eexists; split; [done|]; simpl;
     by rewrite ?request_events_snoc, ?extracts_of_snoc, ?app_nil_r).
Qed.

Lemma download_attempt_unauthorised u h d a w r rest :
  transport w = r :: rest → status_code r = 401 →
  ∃ w1, download_attempt (Some u) h d a w = (Exit 1, w1)
    ∧ transport w1 = rest
    ∧ request_events (trace w1) = request_events (trace w) ++ [(u, h, None)]
    ∧ extracts_of (trace w1) = extracts_of (trace w).
Proof.
  intros Htr Hst.
  unfold download_attempt, try_except, logging_debug, logging_warning,
    check_status, zip_extractall, logging_error.
  run. rewrite Htr. run. rewrite decide_True by done. run.
  eexists; split; [done|]; simpl.
  by rewrite ?request_events_snoc, ?extracts_of_snoc, ?app_nil_r.
Qed.

Lemma sent_events {A} w (res : Outcome A * World) evs :
  request_events (trace res.2) = request_events (trace w) ++ evs →
  sent w res = length evs.
Proof.
  intros H. unfold sent. rewrite !requests_of_events, H, fmap_app, length_app,
    !length_fmap. lia.
Qed.

Lemma most_recent_action_url_nil commits :
  get_most_recent_action_url commits [] = None.
Proof.
  unfold get_most_recent_action_url, dict_comprehension. simpl.
  induction commits as [|c cs IH]; [done|]. simpl. by rewrite lookup_empty.
Qed.

(** A run of [install_artifacts] that took two answers, the first a list of
    commits and the second an object with artifacts of which some are named
    GDS, and that sent both listing requests, goes into the loop. *)
Lemma install_artifacts_enters_loop urlparse fuel url directory w r1 r2 rest commits d all :
  let res := install_artifacts urlparse fuel url directory w in
  transport w = r1 :: r2 :: rest → (2 ≤ sent w res)%nat →
  status_code r2 ≠ 401 →
  body r1 = BJson (JList commits) → body r2 = BJson (JDict d) →
  artifacts d = Some all → gds_artifacts all ≠ [] →
  ∃ w2, transport w2 = rest
    ∧ request_events (trace w2)
      = request_events (trace w)
        ++ [api_request urlparse url w "/commits" None;
            api_request urlparse url w "/actions/artifacts" (Some 100)]
    ∧ extracts_of (trace w2) = extracts_of (trace w)
    ∧ res = (download_loop fuel
               (get_most_recent_action_url commits (gds_artifacts all))
               (resolved_headers w) directory 1 3 ≫= after_download) w2.
Proof.
  intros res Htr Hsent Hst Hb1 Hb2 Hart Hgds.
  destruct (install_artifacts_phases urlparse fuel url directory w)
    as [(n & Hn & Hev & _ & _ & _ & Hwhy)
       |(r1' & r2' & commits' & d' & all' & w2 & Htr' & Hb1' & _ & Hb2' & Hart'
         & _ & Hev & Hex & _ & Hres)]; fold res in Hev.
  - rewrite (sent_events _ _ _ Hev) in Hsent.
    assert (n = 2%nat) as ->.
    { destruct n as [|[|[|]]]; simpl in Hsent; lia. }
    destruct (Hwhy eq_refl) as [[r Hr]|(r1' & r2' & rest' & Htr' & Hc)];
      [congruence|].
    rewrite Htr in Htr'. injection Htr' as <- <- <-.
    destruct Hc as [?|[Hnj|[(j & Hj & Hno)|[(d' & all' & Hd' & Hall' & Hnil)|[d0 Hd0]]]]].
    + done.
    + by destruct (Hnj (JDict d)).
    + rewrite Hb2 in Hj. injection Hj as <-. simpl in Hno. congruence.
    + rewrite Hb2 in Hd'. injection Hd' as <-. congruence.
    + congruence.
  - rewrite Htr in Htr'. injection Htr' as <- <- Hrest.
    rewrite Hb1 in Hb1'. injection Hb1' as <-.
    rewrite Hb2 in Hb2'. injection Hb2' as <-.
    rewrite Hart in Hart'. injection Hart' as <-.
    exists w2. by fold res in Hres.
Qed.

(** X14: everything [install_artifacts] sends.  Whatever the answers, its
    requests are, in this order, the commits listing, the artifacts listing
    with [per_page] set to 100, and at most two downloads of one and the
    same address; it may stop after any of them.  All carry the headers
    resolved from the environment on entry, and the environment is left as
    it was. *)
Theorem install_artifacts_requests urlparse fuel url directory w :
  let res := install_artifacts urlparse fuel url directory w in
  ∃ (n : nat) (download_url : string),
    (n ≤ 4)%nat
    ∧ request_events (trace res.2)
      = request_events (trace w)
        ++ take n [api_request urlparse url w "/commits" None;
                   api_request urlparse url w "/actions/artifacts" (Some 100);
                   (download_url, resolved_headers w, None);
                   (download_url, resolved_headers w, None)]
    ∧ environ res.2 = environ w.
Proof.
  intros res.
  destruct (install_artifacts_phases urlparse fuel url directory w)
    as [(n & Hn & Hev & _ & Henv & _ & _)
       |(r1 & r2 & commits & d & all & w2 & _ & _ & _ & _ & _ & _ & Hev & _
         & Henv & Hres)]; fold res in Hev.
  - exists n, "". split; [lia|]. fold res in Henv. split; [|done].
    rewrite Hev. by destruct n as [|[|[|]]]; [..|lia].
  - fold res in Hres.
    set (u := get_most_recent_action_url commits (gds_artifacts all)) in *.
    set (h := resolved_headers w) in *.
    pose proof (download_loop_run fuel u h directory 1 3 w2)
      as (Henv' & k & Hk & Hev' & _).
    destruct (download_loop fuel u h directory 1 3 w2) as [o w3] eqn:Hloop.
    simpl in Henv', Hev'.
    assert (request_events (trace res.2) = request_events (trace w3)
            ∧ environ res.2 = environ w3) as [Hev3 Henv3].
    { rewrite Hres, bind_run, Hloop.
      destruct o as [left_at|code|e]; [|done..].
      pose proof (calm_after_download left_at w3) as (? & _ & _ & ?). done. }
    change (Z.to_nat (3 - 1)) with 2%nat in Hk.
    rewrite Hev3, Hev', Hev, <- app_assoc.
    destruct u as [u|].
    + exists (2 + k)%nat, u. split; [lia|]. split; [|congruence].
      f_equal. by destruct k as [|[|[|]]]; [..|lia].
    + exists 2%nat, "". split; [lia|]. split; [|congruence]. done.
Qed.

Lemma download_loop_step fuel u h d a m w :
  a < m →
  download_loop (S fuel) u h d a m w
  = match download_attempt u h d a w with
    | (Ret (true, a'), w1) => (Ret (Some a'), w1)
    | (Ret (false, a'), w1) => download_loop fuel u h d a' m w1
    | (Exit code, w1) => (Exit code, w1)
    | (Raise e, w1) => (Raise e, w1)
    end.
Proof.
  intros Hlt. simpl. rewrite (proj2 (Z.ltb_lt _ _) Hlt), bind_run.
  by destruct (download_attempt u h d a w) as [[[[] a']|code|e] w1].
Qed.

(** X15: a return of [install_artifacts] means an archive was unpacked in
    full.  The function returns exactly when one call of [extractall] has
    returned, and that call unpacked into [directory]; in a run that ends
    by [exit] or an exception no call of [extractall] has returned.  What
    a damaged archive writes before it raises [BadZipFile] is outside
    this statement. *)
Theorem install_artifacts_return_means_extracted urlparse fuel url directory w :
  (2 ≤ fuel)%nat →
  let res := install_artifacts urlparse fuel url directory w in
  (res.1 = Ret (Some tt)
   ∧ ∃ members, extracts_of (trace res.2)
                = extracts_of (trace w) ++ [(directory, members)])
  ∨ ((∀ x, res.1 ≠ Ret x)
     ∧ extracts_of (trace res.2) = extracts_of (trace w)).
Proof.
  intros Hfuel res.
  destruct (install_artifacts_phases urlparse fuel url directory w)
    as [(n & _ & _ & Hex & _ & Hret & _)
       |(r1 & r2 & commits & d & all & w2 & _ & _ & _ & _ & _ & _ & _ & Hex
         & _ & Hres)]; fold res in Hex.
  { right. by fold res in Hret. }
  fold res in Hres.
  set (u := get_most_recent_action_url commits (gds_artifacts all)) in *.
  set (h := resolved_headers w) in *.
  pose proof (download_loop_run fuel u h directory 1 3 w2) as (_ & k & _ & _ & Hend).
  pose proof (download_loop_fuel fuel u h directory 1 3 w2) as [_ Hsome];
    [simpl; lia|].
  destruct (download_loop fuel u h directory 1 3 w2) as [o w3] eqn:Hloop.
  simpl in Hend, Hsome. rewrite bind_run, Hloop in Hres.
  destruct Hend as [(a' & ms & -> & Ha & Hex3)|[Hex3 Hmax]].
  - left. rewrite Hres. unfold after_download. rewrite decide_False by lia.
    split; [done|]. exists ms. simpl. by rewrite Hex3, Hex.
  - right. destruct o as [[a'|]|code|e]; try done;
      try (rewrite Hres; simpl; split; [done|congruence]).
    rewrite (Hmax a' eq_refl) in Hres. rewrite Hres.
    unfold after_download. rewrite decide_True by done. simpl.
    split; [done|]. by rewrite extracts_of_snoc, app_nil_r, Hex3, Hex.
Qed.

(** X16: the archive [install_artifacts] downloads.  When the artifacts
    named GDS hold one for a commit of the history, the address requested
    third is the one the matcher picks for the most recent such commit; a
    well-formed archive answered there is unpacked into [directory] and the
    function returns, with no further request. *)
Theorem install_artifacts_downloads urlparse fuel url directory w
    r1 r2 r3 rest commits d all download_url members :
  (1 ≤ fuel)%nat →
  let res := install_artifacts urlparse fuel url directory w in
  transport w = r1 :: r2 :: r3 :: rest → (2 ≤ sent w res)%nat →
  status_code r2 ≠ 401 →
  body r1 = BJson (JList commits) → body r2 = BJson (JDict d) →
  artifacts d = Some all →
  get_most_recent_action_url commits (gds_artifacts all) = Some download_url →
  status_code r3 ≠ 401 → body r3 = BZip members →
  res.1 = Ret (Some tt)
  ∧ request_events (trace res.2)
    = request_events (trace w)
      ++ [api_request urlparse url w "/commits" None;
          api_request urlparse url w "/actions/artifacts" (Some 100);
          (download_url, resolved_headers w, None)]
  ∧ extracts_of (trace res.2) = extracts_of (trace w) ++ [(directory, members)]
  ∧ transport res.2 = rest.
Proof.
  intros Hfuel res Htr Hsent Hst2 Hb1 Hb2 Hart Hurl Hst3 Hb3.
  assert (gds_artifacts all ≠ []) as Hgds.
  { intros Hnil. by rewrite Hnil, most_recent_action_url_nil in Hurl. }
  destruct (install_artifacts_enters_loop urlparse fuel url directory w
              r1 r2 (r3 :: rest) commits d all Htr Hsent Hst2 Hb1 Hb2 Hart Hgds)
    as (w2 & Htr2 & Hev & Hex & Hres).
  fold res in Hres. rewrite Hurl in Hres.
  destruct fuel as [|fuel]; [lia|].
  destruct (download_attempt_valid download_url (resolved_headers w) directory 1
              w2 r3 rest members Htr2 Hst3 Hb3) as (w3 & Hrun & Htr3 & Hev3 & Hex3).
  rewrite bind_run, download_loop_step, Hrun in Hres by lia.
  rewrite Hres. simpl. split; [done|].
  rewrite Hev3, Hev, Hex3, Hex, <- app_assoc. done.
Qed.

(** X17: one corrupt archive is forgiven.  When the first download is
    answered by something that is no zip archive, the same address is
    requested once more, and a well-formed archive answered then is
    unpacked and the function returns. *)
Theorem install_artifacts_retries_once urlparse fuel url directory w
    r1 r2 r3 r4 rest commits d all download_url members :
  (2 ≤ fuel)%nat →
  let res := install_artifacts urlparse fuel url directory w in
  transport w = r1 :: r2 :: r3 :: r4 :: rest → (2 ≤ sent w res)%nat →
  status_code r2 ≠ 401 →
  body r1 = BJson (JList commits) → body r2 = BJson (JDict d) →
  artifacts d = Some all →
  get_most_recent_action_url commits (gds_artifacts all) = Some download_url →
  status_code r3 ≠ 401 → (∀ ms, body r3 ≠ BZip ms) →
  status_code r4 ≠ 401 → body r4 = BZip members →
  res.1 = Ret (Some tt)
  ∧ request_events (trace res.2)
    = request_events (trace w)
      ++ [api_request urlparse url w "/commits" None;
          api_request urlparse url w "/actions/artifacts" (Some 100);
          (download_url, resolved_headers w, None);
          (download_url, resolved_headers w, None)]
  ∧ extracts_of (trace res.2) = extracts_of (trace w) ++ [(directory, members)]
  ∧ transport res.2 = rest.
Proof.
  intros Hfuel res Htr Hsent Hst2 Hb1 Hb2 Hart Hurl Hst3 Hb3 Hst4 Hb4.
  assert (gds_artifacts all ≠ []) as Hgds.
  { intros Hnil. by rewrite Hnil, most_recent_action_url_nil in Hurl. }
  destruct (install_artifacts_enters_loop urlparse fuel url directory w
              r1 r2 (r3 :: r4 :: rest) commits d all Htr Hsent Hst2 Hb1 Hb2 Hart Hgds)
    as (w2 & Htr2 & Hev & Hex & Hres).
  fold res in Hres. rewrite Hurl in Hres.
  destruct fuel as [|[|fuel]]; [lia..|].
  destruct (download_attempt_corrupt download_url (resolved_headers w) directory 1
              w2 r3 (r4 :: rest) Htr2 Hst3 Hb3) as (w3 & Hrun & Htr3 & Hev3 & Hex3).
  destruct (download_attempt_valid download_url (resolved_headers w) directory (1 + 1)
              w3 r4 rest members Htr3 Hst4 Hb4) as (w4 & Hrun4 & Htr4 & Hev4 & Hex4).
  rewrite bind_run, download_loop_step, Hrun, download_loop_step, Hrun4 in Hres by lia.
  rewrite Hres. simpl. split; [done|].
  rewrite Hev4, Hev3, Hev, Hex4, Hex3, Hex, <- !app_assoc. done.
Qed.

(** X18: no artifact for any commit.  When artifacts named GDS exist but
    none belongs to a commit of the history, the matcher yields nothing and
    the download is asked of no address: [requests.get] refuses it with
    [MissingSchema], which the loop does not catch.  Nothing is sent after
    the two listings and nothing is unpacked. *)
Theorem install_artifacts_no_match urlparse fuel url directory w
    r1 r2 rest commits d all :
  (1 ≤ fuel)%nat →
  let res := install_artifacts urlparse fuel url directory w in
  transport w = r1 :: r2 :: rest → (2 ≤ sent w res)%nat →
  status_code r2 ≠ 401 →
  body r1 = BJson (JList commits) → body r2 = BJson (JDict d) →
  artifacts d = Some all → gds_artifacts all ≠ [] →
  get_most_recent_action_url commits (gds_artifacts all) = None →
  res.1 = Raise MissingSchema
  ∧ request_events (trace res.2)
    = request_events (trace w)
      ++ [api_request urlparse url w "/commits" None;
          api_request urlparse url w "/actions/artifacts" (Some 100)]
  ∧ extracts_of (trace res.2) = extracts_of (trace w)
  ∧ transport res.2 = rest.
Proof.
  intros Hfuel res Htr Hsent Hst2 Hb1 Hb2 Hart Hgds Hurl.
  destruct (install_artifacts_enters_loop urlparse fuel url directory w
              r1 r2 rest commits d all Htr Hsent Hst2 Hb1 Hb2 Hart Hgds)
    as (w2 & Htr2 & Hev & Hex & Hres).
  fold res in Hres. rewrite Hurl in Hres.
  destruct fuel as [|fuel]; [lia|].
  pose proof (download_attempt_run None (resolved_headers w) directory 1 w2)
    as (_ & Hout & Hev3 & Hex3 & Htr3).
  rewrite bind_run, download_loop_step in Hres by lia.
  destruct (download_attempt None (resolved_headers w) directory 1 w2) as [o w3].
  simpl in Hout, Hev3, Hex3, Htr3. subst o. rewrite Hres. simpl.
  split; [done|]. rewrite Hev3, Hex3, Htr3. done.
Qed.

(** X19: a refused download is not retried.  A 401 on the download ends the
    process with status 1 at once: the loop catches [BadZipFile] only, so
    the second attempt is not made and nothing is unpacked, whatever the
    body of the answer. *)
Theorem install_artifacts_download_unauthorised urlparse fuel url directory w
    r1 r2 r3 rest commits d all download_url :
  (1 ≤ fuel)%nat →
  let res := install_artifacts urlparse fuel url directory w in
  transport w = r1 :: r2 :: r3 :: rest → (2 ≤ sent w res)%nat →
  status_code r2 ≠ 401 →
  body r1 = BJson (JList commits) → body r2 = BJson (JDict d) →
  artifacts d = Some all →
  get_most_recent_action_url commits (gds_artifacts all) = Some download_url →
  status_code r3 = 401 →
  res.1 = Exit 1
  ∧ request_events (trace res.2)
    = request_events (trace w)
      ++ [api_request urlparse url w "/commits" None;
          api_request urlparse url w "/actions/artifacts" (Some 100);
          (download_url, resolved_headers w, None)]
  ∧ extracts_of (trace res.2) = extracts_of (trace w)
  ∧ transport res.2 = rest.
Proof.
  intros Hfuel res Htr Hsent Hst2 Hb1 Hb2 Hart Hurl Hst3.
  assert (gds_artifacts all ≠ []) as Hgds.
  { intros Hnil. by rewrite Hnil, most_recent_action_url_nil in Hurl. }
  destruct (install_artifacts_enters_loop urlparse fuel url directory w
              r1 r2 (r3 :: rest) commits d all Htr Hsent Hst2 Hb1 Hb2 Hart Hgds)
    as (w2 & Htr2 & Hev & Hex & Hres).
  fold res in Hres. rewrite Hurl in Hres.
  destruct fuel as [|fuel]; [lia|].
  destruct (download_attempt_unauthorised download_url (resolved_headers w) directory 1
              w2 r3 rest Htr2 Hst3) as (w3 & Hrun & Htr3 & Hev3 & Hex3).
  rewrite bind_run, download_loop_step, Hrun in Hres by lia.
  rewrite Hres. simpl. split; [done|].
  rewrite Hev3, Hev, Hex3, Hex, <- app_assoc. done.
Qed.

Lemma install_artifacts_return_means_extracted_witness :
  let url := "https://github.com/acme/widget" in
  let commits := response 200 (BJson (JList [Commit.mk "c2"; Commit.mk "c1"])) in
  let gds := Artifact.mk "GDS" (WorkflowRunRef.mk "c1") "urlA" in
  let listing :=
    response 200 (BJson (JDict {| artifacts := Some [gds]; workflow_runs := None;
                                  content := None; encoding := None |})) in
  let zip := response 200 (BZip [("tt_um_widget.gds", "GDSII")]) in
  let w := world ∅ 0 [commits; listing; zip] in
  let res := install_artifacts urlparse_plain 2 url "gds" w in
  (2 ≤ 2)%nat
  ∧ ((res.1 = Ret (Some tt)
      ∧ ∃ members, extracts_of (trace res.2)
                   = extracts_of (trace w) ++ [("gds", members)])
     ∨ ((∀ x, res.1 ≠ Ret x)
        ∧ extracts_of (trace res.2) = extracts_of (trace w))).
Proof.
  intros url commits gds listing zip w res. split; [lia|].
  apply (install_artifacts_return_means_extracted urlparse_plain 2 url "gds" w). lia.
Defined.

Lemma install_artifacts_downloads_witness :
  let url := "https://github.com/acme/widget.git" in
  let commits := response 200 (BJson (JList [Commit.mk "c3"; Commit.mk "c2"; Commit.mk "c1"])) in
  let old := Artifact.mk "GDS" (WorkflowRunRef.mk "c1") "urlA" in
  let new := Artifact.mk "GDS" (WorkflowRunRef.mk "c2") "urlB" in
  let listing :=
    response 200 (BJson (JDict {| artifacts := Some [old; new]; workflow_runs := None;
                                  content := None; encoding := None |})) in
  let zip := response 200 (BZip [("tt_um_widget.gds", "GDSII")]) in
  let w := world ∅ 0 [commits; listing; zip] in
  let res := install_artifacts urlparse_plain 1 url "gds" w in
  res.1 = Ret (Some tt)
  ∧ request_events (trace res.2)
    = [("https://api.github.com/repos/acme/widget/commits", resolved_headers w, None);
       ("https://api.github.com/repos/acme/widget/actions/artifacts",
        resolved_headers w, Some 100);
       ("urlB", resolved_headers w, None)]
  ∧ extracts_of (trace res.2) = [("gds", [("tt_um_widget.gds", "GDSII")])]
  ∧ transport res.2 = [].
Proof.
  intros url commits old new listing zip w res.
  eapply (install_artifacts_downloads urlparse_plain 1 url "gds" w
            commits listing zip []);
    [lia|reflexivity|vm_compute; lia|discriminate|reflexivity|reflexivity
    |reflexivity|reflexivity|discriminate|reflexivity].
Defined.

Lemma install_artifacts_retries_once_witness :
  let url := "https://github.com/acme/widget" in
  let commits := response 200 (BJson (JList [Commit.mk "c1"])) in
  let gds := Artifact.mk "GDS" (WorkflowRunRef.mk "c1") "urlA" in
  let listing :=
    response 200 (BJson (JDict {| artifacts := Some [gds]; workflow_runs := None;
                                  content := None; encoding := None |})) in
  let corrupt := response 200 BOther in
  let zip := response 200 (BZip [("tt_um_widget.gds", "GDSII")]) in
  let w := world ∅ 0 [commits; listing; corrupt; zip] in
  let res := install_artifacts urlparse_plain 2 url "gds" w in
  res.1 = Ret (Some tt)
  ∧ request_events (trace res.2)
    = [("https://api.github.com/repos/acme/widget/commits", resolved_headers w, None);
       ("https://api.github.com/repos/acme/widget/actions/artifacts",
        resolved_headers w, Some 100);
       ("urlA", resolved_headers w, None);
       ("urlA", resolved_headers w, None)]
  ∧ extracts_of (trace res.2) = [("gds", [("tt_um_widget.gds", "GDSII")])]
  ∧ transport res.2 = [].
Proof.
  intros url commits gds listing corrupt zip w res.
  eapply (install_artifacts_retries_once urlparse_plain 2 url "gds" w
            commits listing corrupt zip []);
    [lia|reflexivity|vm_compute; lia|discriminate|reflexivity|reflexivity
    |reflexivity|reflexivity|discriminate|discriminate|discriminate|reflexivity].
Defined.

Lemma install_artifacts_no_match_witness :
  let url := "https://github.com/acme/widget" in
  let commits := response 200 (BJson (JList [Commit.mk "c2"])) in
  let gds := Artifact.mk "GDS" (WorkflowRunRef.mk "c1") "urlA" in
  let listing :=
    response 200 (BJson (JDict {| artifacts := Some [gds]; workflow_runs := None;
                                  content := None; encoding := None |})) in
  let zip := response 200 (BZip [("tt_um_widget.gds", "GDSII")]) in
  let w := world ∅ 0 [commits; listing; zip] in
  let res := install_artifacts urlparse_plain 1 url "gds" w in
  res.1 = Raise MissingSchema
  ∧ request_events (trace res.2)
    = [("https://api.github.com/repos/acme/widget/commits", resolved_headers w, None);
       ("https://api.github.com/repos/acme/widget/actions/artifacts",
        resolved_headers w, Some 100)]
  ∧ extracts_of (trace res.2) = []
  ∧ transport res.2 = [zip].
Proof.
  intros url commits gds listing zip w res.
  eapply (install_artifacts_no_match urlparse_plain 1 url "gds" w
            commits listing [zip]);
    [lia|reflexivity|vm_compute; lia|discriminate|reflexivity|reflexivity
    |reflexivity|discriminate|reflexivity].
Defined.

Lemma install_artifacts_download_unauthorised_witness :
  let url := "https://github.com/acme/widget" in
  let commits := response 200 (BJson (JList [Commit.mk "c1"])) in
  let gds := Artifact.mk "GDS" (WorkflowRunRef.mk "c1") "urlA" in
  let listing :=
    response 200 (BJson (JDict {| artifacts := Some [gds]; workflow_runs := None;
                                  content := None; encoding := None |})) in
  let refused := response 401 (BZip [("tt_um_widget.gds", "GDSII")]) in
  let zip := response 200 (BZip [("tt_um_widget.gds", "GDSII")]) in
  let w := world ∅ 0 [commits; listing; refused; zip] in
  let res := install_artifacts urlparse_plain 2 url "gds" w in
  res.1 = Exit 1
  ∧ request_events (trace res.2)
    = [("https://api.github.com/repos/acme/widget/commits", resolved_headers w, None);
       ("https://api.github.com/repos/acme/widget/actions/artifacts",
        resolved_headers w, Some 100);
       ("urlA", resolved_headers w, None)]
  ∧ extracts_of (trace res.2) = []
  ∧ transport res.2 = [zip].
Proof.
  intros url commits gds listing refused zip w res.
  eapply (install_artifacts_download_unauthorised urlparse_plain 2 url "gds" w
            commits listing refused [zip]);
    [lia|reflexivity|vm_compute; lia|discriminate|reflexivity|reflexivity
    |reflexivity|reflexivity|reflexivity].
Defined.

(** ** [get_latest_action_url] *)

Ltac stop n :=
  left; exists n; split; [lia|]; split; [by chase_events|];
  split; [by chase_events|]; split; [by chase_environ|].

(** The run of [get_latest_action_url]: what it sends, and how it ends
    once both listings are in. *)
Lemma get_latest_action_url_phases urlparse url directory w :
  let res := get_latest_action_url urlparse url directory w in
  let e1 := api_request urlparse url w "/commits" None in
  let e2 := api_request urlparse url w "/actions/runs" (Some 100) in
  (∃ n, (n ≤ 2)%nat
      ∧ request_events (trace res.2) = request_events (trace w) ++ take n [e1; e2]
      ∧ extracts_of (trace res.2) = extracts_of (trace w)
      ∧ environ res.2 = environ w
      ∧ (n = 2%nat →
         (∃ r1, transport w = [r1])
         ∨ ∃ r1 r2 rest, transport w = r1 :: r2 :: rest ∧
             (status_code r2 = 401 ∨ ∀ j, body r2 ≠ BJson j)))
  ∨ (∃ r1 r2 rest commits runs,
       transport w = r1 :: r2 :: rest
       ∧ body r1 = BJson commits
       ∧ status_code r2 ≠ 401
       ∧ body r2 = BJson runs
       ∧ request_events (trace res.2) = request_events (trace w) ++ [e1; e2]
       ∧ extracts_of (trace res.2) = extracts_of (trace w)
       ∧ environ res.2 = environ w
       ∧ transport res.2 = rest
       ∧ last (trace res.2)
         = Some (EvRequest (api_url (repo_of urlparse url).1
                              (repo_of urlparse url).2 "/actions/runs")
                   (resolved_headers w) (Some 100))
       ∧ res.1 = match runs with
                 | JList _ => Raise TypeError
                 | JDict d =>
                     match workflow_runs d with
                     | None => Raise KeyError
                     | Some runs =>
                         match commits with
                         | JList commits =>
                             Ret (get_most_recent_action_page commits runs)
                         | JDict _ => Raise TypeError
                         end
                     end
                 end).
Proof.
  intros res e1 e2. subst e1 e2. unfold api_request.
  remember res as res' eqn:H. subst res. symmetry in H. rename res' into res.
  unfold get_latest_action_url in H.
  cstep H as [] w0; [|stop 0%nat; lia..].
  kstep H as [user_name repo] w1 Hsplit; [|stop 0%nat; lia..].
  apply split_git_url_repo_of in Hsplit as <-. cbn [fst snd].
  kstep H as [h b] w2 Hc; [|stop 0%nat; lia..].
  apply (resolved_headers_run w) in Hc as ->; [|congruence].
  gstep H as r1 w3; [|stop 1%nat; lia].
  cstep H as [] w4; [|stop 1%nat; lia..].
  cstep H as [] w5; [|stop 1%nat; lia..].
  kstep H as commits w6 Hjson; [|stop 1%nat; lia..].
  assert (body r1 = BJson commits) as Hbody1.
  { revert Hjson. unfold json. destruct (body r1); try done. by intros [= ->]. }
  clear Hjson.
  gstep H as r2 w7.
  2:{ stop 2%nat. intros _. left. exists r1. congruence. }
  assert (transport w = r1 :: r2 :: transport w7) as Htr by congruence.
  rewrite bind_run, check_status_run in H.
  destruct (decide (status_code r2 = 401)) as [Hst|Hst].
  { subst res. left. exists 2%nat. simpl.
    rewrite request_events_snoc, extracts_of_snoc, !app_nil_r.
    split; [lia|]. split; [by chase_events|]. split; [by chase_events|].
    split; [by chase_environ|].
    intros _. right. exists r1, r2, (transport w7). auto. }
  rewrite bind_run in H. unfold json at 1 in H.
  destruct (body r2) as [runs| |] eqn:Hbody;
    [|subst res; left; exists 2%nat; simpl;
      (split; [lia|]); (split; [by chase_events|]); (split; [by chase_events|]);
      (split; [by chase_environ|]);
      intros _; right; exists r1, r2, (transport w7);
      (split; [done|]); right; intros j; rewrite Hbody; discriminate..].
  cbn [mret M_ret] in H.
  right. exists r1, r2, (transport w7), commits, runs.
  split; [done|]. split; [done|]. split; [done|]. split; [done|].
  assert (res.2 = w7 ∧ res.1 = match runs with
                 | JList _ => Raise TypeError
                 | JDict d =>
                     match workflow_runs d with
                     | None => Raise KeyError
                     | Some runs =>
                         match commits with
                         | JList commits =>
                             Ret (get_most_recent_action_page commits runs)
                         | JDict _ => Raise TypeError
                         end
                     end
                 end) as [-> ->].
  { subst res. destruct runs as [|[a [runs|] c e]]; [done| |done].
    by destruct commits. }
  split; [by chase_events|]. split; [by chase_events|].
  split; [by chase_environ|]. split; [done|]. split; [assumption|done].
Qed.

(** X20: everything [get_latest_action_url] sends.  Its requests are the
    commits listing and then the runs listing with [per_page] set to 100,
    both with the headers resolved from the environment on entry; it
    unpacks nothing and leaves the environment as it was. *)
Theorem get_latest_action_url_requests urlparse url directory w :
  let res := get_latest_action_url urlparse url directory w in
  ∃ n : nat,
    (n ≤ 2)%nat
    ∧ request_events (trace res.2)
      = request_events (trace w)
        ++ take n [api_request urlparse url w "/commits" None;
                   api_request urlparse url w "/actions/runs" (Some 100)]
    ∧ extracts_of (trace res.2) = extracts_of (trace w)
    ∧ environ res.2 = environ w.
Proof.
  intros res.
  destruct (get_latest_action_url_phases urlparse url directory w)
    as [(n & Hn & Hev & Hex & Henv & _)
       |(r1 & r2 & rest & commits & runs & _ & _ & _ & _ & Hev & Hex & Henv & _)].
  - by exists n.
  - by exists 2%nat.
Qed.

(** X21: the page [get_latest_action_url] returns.  Once the commits and
    the runs are in, the result is what [get_most_recent_action_page]
    finds: the page of the run named gds of the most recent commit that
    has one, or [None] when no commit has one. *)
Theorem get_latest_action_url_page urlparse url directory w
    r1 r2 rest commits d runs :
  let res := get_latest_action_url urlparse url directory w in
  transport w = r1 :: r2 :: rest → (2 ≤ sent w res)%nat →
  status_code r2 ≠ 401 →
  body r1 = BJson (JList commits) → body r2 = BJson (JDict d) →
  workflow_runs d = Some runs →
  res.1 = Ret (get_most_recent_action_page commits runs)
  ∧ request_events (trace res.2)
    = request_events (trace w)
      ++ [api_request urlparse url w "/commits" None;
          api_request urlparse url w "/actions/runs" (Some 100)]
  ∧ transport res.2 = rest.
Proof.
  intros res Htr Hsent Hst Hb1 Hb2 Hruns.
  destruct (get_latest_action_url_phases urlparse url directory w)
    as [(n & Hn & Hev & _ & _ & Hwhy)
       |(r1' & r2' & rest' & commits' & runs' & Htr' & Hb1' & _ & Hb2' & Hev
         & _ & _ & Hrest & _ & Hout)]; fold res in Hev.
  - rewrite (sent_events _ _ _ Hev) in Hsent.
    assert (n = 2%nat) as ->.
    { destruct n as [|[|[|]]]; simpl in Hsent; lia. }
    destruct (Hwhy eq_refl) as [[r Hr]|(r1' & r2' & rest' & Htr' & Hc)];
      [congruence|].
    rewrite Htr in Htr'. injection Htr' as <- <- <-.
    destruct Hc as [?|Hnj]; [done|]. by destruct (Hnj (JDict d)).
  - fold res in Hrest, Hout.
    rewrite Htr in Htr'. injection Htr' as <- <- <-.
    rewrite Hb1 in Hb1'. injection Hb1' as <-.
    rewrite Hb2 in Hb2'. injection Hb2' as <-.
    rewrite Hruns in Hout. done.
Qed.

(** X22: an answer without runs.  When the second answer is an object
    that lacks the key [workflow_runs], [get_latest_action_url] raises
    [KeyError]; when it is an array, [TypeError].  Neither is logged nor
    turned into an exit, unlike the missing [artifacts] key in
    [install_artifacts]. *)
Theorem get_latest_action_url_missing_runs urlparse url directory w
    r1 r2 rest data :
  let res := get_latest_action_url urlparse url directory w in
  transport w = r1 :: r2 :: rest → (2 ≤ sent w res)%nat →
  status_code r2 ≠ 401 → body r2 = BJson data →
  match data with JList _ => True | JDict d => workflow_runs d = None end →
  res.1 = Raise (match data with JList _ => TypeError | JDict _ => KeyError end)
  ∧ sent w res = 2%nat
  ∧ last (trace res.2)
    = Some (EvRequest (api_url (repo_of urlparse url).1
                         (repo_of urlparse url).2 "/actions/runs")
              (resolved_headers w) (Some 100)).
Proof.
  intros res Htr Hsent Hst Hb2 Hdata.
  destruct (get_latest_action_url_phases urlparse url directory w)
    as [(n & Hn & Hev & _ & _ & Hwhy)
       |(r1' & r2' & rest' & commits' & runs' & Htr' & _ & _ & Hb2' & Hev
         & _ & _ & _ & Hlast & Hout)]; fold res in Hev.
  - rewrite (sent_events _ _ _ Hev) in Hsent.
    assert (n = 2%nat) as ->.
    { destruct n as [|[|[|]]]; simpl in Hsent; lia. }
    destruct (Hwhy eq_refl) as [[r Hr]|(r1' & r2' & rest' & Htr' & Hc)];
      [congruence|].
    rewrite Htr in Htr'. injection Htr' as <- <- <-.
    destruct Hc as [?|Hnj]; [done|]. by destruct (Hnj data).
  - fold res in Hlast, Hout.
    rewrite Htr in Htr'. injection Htr' as <- <- <-.
    rewrite Hb2 in Hb2'. injection Hb2' as <-.
    split; [|split; [by rewrite (sent_events _ _ _ Hev)|done]].
    rewrite Hout. destruct data as [|d]; [done|]. by rewrite Hdata.
Qed.

Lemma get_latest_action_url_page_witness :
  let url := "https://github.com/acme/widget" in
  let history := [Commit.mk "c3"; Commit.mk "c2"; Commit.mk "c1"] in
  let runs := [Run.mk "docs" "c3" "pageD"; Run.mk "gds" "c2" "pageB";
               Run.mk "gds" "c1" "pageA"] in
  let d := {| artifacts := None; workflow_runs := Some runs;
              content := None; encoding := None |} in
  let w := world ∅ 0 [response 200 (BJson (JList history));
                      response 200 (BJson (JDict d))] in
  let res := get_latest_action_url urlparse_plain url "gds" w in
  res.1 = Ret (Some "pageB")
  ∧ request_events (trace res.2)
    = [("https://api.github.com/repos/acme/widget/commits", resolved_headers w, None);
       ("https://api.github.com/repos/acme/widget/actions/runs",
        resolved_headers w, Some 100)]
  ∧ transport res.2 = [].
Proof.
  intros url history runs d w res.
  apply (get_latest_action_url_page urlparse_plain url "gds" w
           (response 200 (BJson (JList history))) (response 200 (BJson (JDict d)))
           [] history d runs);
    [reflexivity|vm_compute; lia|discriminate|reflexivity|reflexivity|reflexivity].
Defined.

Lemma get_latest_action_url_missing_runs_witness :
  let url := "https://github.com/acme/widget" in
  let commits := response 200 (BJson (JList [Commit.mk "c1"])) in
  let not_found :=
    response 404 (BJson (JDict {| artifacts := None; workflow_runs := None;
                                  content := None; encoding := None |})) in
  let w := world ∅ 0 [commits; not_found] in
  let res := get_latest_action_url urlparse_plain url "gds" w in
  res.1 = Raise KeyError
  ∧ sent w res = 2%nat
  ∧ last (trace res.2)
    = Some (EvRequest "https://api.github.com/repos/acme/widget/actions/runs"
              (resolved_headers w) (Some 100)).
Proof.
  intros url commits not_found w res.
  apply (get_latest_action_url_missing_runs urlparse_plain url "gds" w
           commits not_found []
           (JDict {| artifacts := None; workflow_runs := None;
                     content := None; encoding := None |}));
    [reflexivity|vm_compute; lia|discriminate|reflexivity|reflexivity].
Defined.

(** ** [fetch_file] *)

(** X23: what [fetch_file] does on the network.  It sends exactly one
    request, for [url] as given and without any header of its own (no
    credentials are read from the environment), and takes one answer.  It
    never ends the process, not even on a 401, and unpacks nothing. *)
Theorem fetch_file_request content_bytes open_wb os_strerror url filename files w :
  let res := fetch_file content_bytes open_wb os_strerror url filename files w in
  request_events (trace res.2) = request_events (trace w) ++ [(url, ∅, None)]
  ∧ transport res.2 = tail (transport w)
  ∧ environ res.2 = environ w
  ∧ extracts_of (trace res.2) = extracts_of (trace w)
  ∧ (∀ code, res.1 ≠ Exit code).
Proof.
  intros res. subst res.
  unfold fetch_file, logging_info, logging_warning.
  run. destruct (transport w) as [|r rest]; run;
    [|destruct (decide (status_code r ≠ 200)); run;
      [|destruct (open_wb filename files); run]];
    rewrite ?request_events_snoc, ?extracts_of_snoc, ?app_nil_r; simpl;
    rewrite <- ?app_assoc; done.
Qed.

(** X24: any status but 200 is a missing file.  [fetch_file] then logs a
    warning and raises [FileNotFoundError] with [ENOENT], its message and
    the name of the local file (not the URL); no file is created or
    changed.  This holds for a 401 as for a 404. *)
Theorem fetch_file_not_200 content_bytes open_wb os_strerror url filename files w
    r rest :
  transport w = r :: rest → status_code r ≠ 200 →
  let res := fetch_file content_bytes open_wb os_strerror url filename files w in
  res.1 = Ret (inl (FileNotFoundError ENOENT (os_strerror ENOENT) filename), files)
  ∧ last (trace res.2) = Some (EvLog WARNING ("couldn't download " +:+ url)).
Proof.
  intros Htr Hst res. subst res.
  unfold fetch_file, logging_info, logging_warning.
  run. rewrite Htr. run. rewrite decide_True by done. run.
  split; [done|]. apply last_snoc.
Qed.

(** X25: a 200 is written.  When the answer has status 200 and the file can
    be opened for writing, [fetch_file] returns with the file holding
    exactly the bytes of the answer, whatever it held before, and every
    other file as it was. *)
Theorem fetch_file_writes content_bytes open_wb os_strerror url filename files w
    r rest :
  transport w = r :: rest → status_code r = 200 →
  open_wb filename files = true →
  let res := fetch_file content_bytes open_wb os_strerror url filename files w in
  ∃ files', res.1 = Ret (inr tt, files')
    ∧ files' !! filename = Some (content_bytes r)
    ∧ (∀ other, other ≠ filename → files' !! other = files !! other)
    ∧ last (trace res.2) = Some (EvLog INFO ("written to " +:+ filename)).
Proof.
  intros Htr Hst Hopen res. subst res.
  unfold fetch_file, logging_info, logging_warning.
  run. rewrite Htr. run. rewrite decide_False by (by intros ?). rewrite Hopen. run.
  eexists. split; [done|]. split; [by rewrite lookup_insert_eq|].
  split; [|apply last_snoc].
  intros other Hne. by rewrite !lookup_insert_ne.
Qed.

Lemma fetch_file_not_200_witness :
  let w := world (<["GH_TOKEN" := "t0k3n"]> ∅) 0 [response 401 BOther] in
  let files : gmap string bytes := <["info.yaml" := str_to_list "old"]> ∅ in
  let res := fetch_file (λ _, str_to_list "new") (λ _ _, true)
               (λ _, "No such file or directory")
               "https://example.org/info.yaml" "info.yaml" files w in
  res.1 = Ret (inl (FileNotFoundError 2 "No such file or directory" "info.yaml"),
               files)
  ∧ last (trace res.2)
    = Some (EvLog WARNING "couldn't download https://example.org/info.yaml").
Proof.
  intros w files res.
  apply (fetch_file_not_200 (λ _, str_to_list "new") (λ _ _, true)
           (λ _, "No such file or directory")
           "https://example.org/info.yaml" "info.yaml" files w
           (response 401 BOther) []); [reflexivity|discriminate].
Defined.

Lemma fetch_file_writes_witness :
  let w := world ∅ 0 [response 200 BOther] in
  let files : gmap string bytes := <["info.yaml" := str_to_list "old"]> ∅ in
  let res := fetch_file (λ _, str_to_list "new") (λ _ _, true)
               (λ _, "No such file or directory")
               "https://example.org/info.yaml" "info.yaml" files w in
  ∃ files', res.1 = Ret (inr tt, files')
    ∧ files' !! "info.yaml" = Some (str_to_list "new")
    ∧ (∀ other, other ≠ "info.yaml" → files' !! other = files !! other)
    ∧ last (trace res.2) = Some (EvLog INFO "written to info.yaml").
Proof.
  intros w files res.
  apply (fetch_file_writes (λ _, str_to_list "new") (λ _ _, true)
           (λ _, "No such file or directory")
           "https://example.org/info.yaml" "info.yaml" files w
           (response 200 BOther) []); reflexivity.
Defined.
